(** * hash.py: content hash, path relativization and archive retention

    A shallow embedding of [hash.py], the external-data program of the
    terraform-aws-lambda module, together with the parts of the Python
    runtime it calls ([str] methods, [posixpath], [hashlib.sha256], the
    file-system calls of [os]).

    Conventions.
    - A Python [str] holding a path and the [bytes] it encodes to are both a
      [string] of 8-bit characters: the UTF-8 form. Splitting at ['/'] and
      comparing strings give the same answers on the UTF-8 form as on code
      points, and [str.encode()] is the identity.
    - A Python exception is a value of [exn]; a call that may raise returns
      a [result].
    - The file system is a tree of directories and regular files (no
      symbolic links, no permission bits); a process sees it through its
      working directory. Times are in seconds.
    - What the interpreter and the platform leave open is a parameter of the
      program: the iteration order of a [set], the function behind
      [os.path.abspath], and, for the sweep, the results of the three [os]
      calls it makes, which other processes can change between two calls. *)

From Stdlib Require Import ZArith NArith List String Ascii Strings.Byte Bool Lia Arith.
From Stdlib Require Import Permutation Sorted.
Import ListNotations.
Open Scope string_scope.
Open Scope list_scope.

Infix "+:+" := String.append (at level 60, right associativity).

(** ** Exceptions and results *)

Inductive errno := ENOENT | ENOTDIR | EISDIR | EACCES | EIO.

Inductive exn :=
| IndexError
| ValueError
| OSError (e : errno).

Inductive result (A : Type) :=
| Ok (a : A)
| Raise (e : exn).
Arguments Ok {A} a.
Arguments Raise {A} e.

Definition bind {A B} (r : result A) (k : A -> result B) : result B :=
  match r with
  | Ok a => k a
  | Raise e => Raise e
  end.

Notation "x <- r ;; k" := (bind r (fun x => k))
  (at level 61, r at next level, right associativity).

Definition errno_eqb (a b : errno) : bool :=
  match a, b with
  | ENOENT, ENOENT | ENOTDIR, ENOTDIR | EISDIR, EISDIR
  | EACCES, EACCES | EIO, EIO => true
  | _, _ => false
  end.

(** ** Python [str] methods *)

Module Str.

Definition slash : ascii := "/"%char.

(** [s.split(sep)] for a one-character separator. *)
Fixpoint split (sep : ascii) (s : string) : list string :=
  match s with
  | EmptyString => [""]
  | String c r =>
      if Ascii.eqb c sep then "" :: split sep r
      else match split sep r with
           | h :: t => String c h :: t
           | [] => [String c ""]
           end
  end.

(** [sep.join(l)] *)
Definition join (sep : string) (l : list string) : string :=
  String.concat sep l.

Fixpoint startswith (s pre : string) {struct pre} : bool :=
  match pre, s with
  | EmptyString, _ => true
  | String _ _, EmptyString => false
  | String a pre', String b s' => Ascii.eqb a b && startswith s' pre'
  end.

Fixpoint endswith (s suf : string) : bool :=
  if String.eqb s suf then true
  else match s with
       | EmptyString => false
       | String _ r => endswith r suf
       end.

(** [s.replace(old, new, count)] for a non-empty [old]; [count = None] is
    the two-argument form. [skip] counts the characters of a match that
    are still to be dropped. *)
Fixpoint replace_go (old new : string) (count : option nat) (skip : nat)
         (s : string) : string :=
  match s with
  | EmptyString => ""
  | String c r =>
      match skip with
      | S k => replace_go old new count k r
      | O =>
          match count with
          | Some O => s
          | _ =>
              if startswith s old
              then new +:+ replace_go old new (option_map Nat.pred count)
                                     (String.length old - 1) r
              else String c (replace_go old new count 0 r)
          end
      end
  end.

(** With an empty [old], Python puts [new] before every character and at
    the end. *)
Fixpoint intersperse (new : string) (count : option nat) (s : string)
  : string :=
  match count with
  | Some O => s
  | _ =>
      match s with
      | EmptyString => new
      | String c r =>
          new +:+ String c (intersperse new (option_map Nat.pred count) r)
      end
  end.

Definition replace_count (s old new : string) (count : option nat)
  : string :=
  match old with
  | EmptyString => intersperse new count s
  | _ => replace_go old new count 0 s
  end.

Definition replace (s old new : string) : string :=
  replace_count s old new None.

(** [s.rstrip('/')] *)
Fixpoint rstrip_slash (s : string) : string :=
  match s with
  | EmptyString => ""
  | String c r =>
      match rstrip_slash r with
      | EmptyString => if Ascii.eqb c slash then "" else String c ""
      | r' => String c r'
      end
  end.

(** [s == '/' * len(s)] *)
Fixpoint all_slashes (s : string) : bool :=
  match s with
  | EmptyString => true
  | String c r => Ascii.eqb c slash && all_slashes r
  end.

End Str.

(** ** [posixpath] *)

Module PosixPath.
Import Str.

Definition isabs (p : string) : bool := startswith p "/".

(** [join(a, b)] *)
Definition join2 (a b : string) : string :=
  if startswith b "/" then b
  else if String.eqb a "" || endswith a "/" then a +:+ b
  else a +:+ "/" +:+ b.

(** [join(a, *p)] *)
Definition join (a : string) (p : list string) : string :=
  fold_left join2 p a.

(** One turn of the loop of [normpath] over the components; [abs] says
    whether the path has initial slashes. The stack is kept in path
    order. *)
Definition norm_step (abs : bool) (new_comps : list string) (comp : string)
  : list string :=
  if String.eqb comp "" || String.eqb comp "." then new_comps
  else if negb (String.eqb comp "..")
          || (negb abs && match new_comps with [] => true | _ => false end)
          || match rev new_comps with
             | l :: _ => String.eqb l ".."
             | [] => false
             end
       then new_comps ++ [comp]
       else removelast new_comps.

Definition norm_comps (abs : bool) (comps : list string) : list string :=
  fold_left (norm_step abs) comps [].

Definition initial_slashes (path : string) : nat :=
  if startswith path "/" then
    if startswith path "//" && negb (startswith path "///") then 2 else 1
  else 0.

Definition normpath (path : string) : string :=
  match path with
  | EmptyString => "."
  | _ =>
      let n := initial_slashes path in
      let comps := norm_comps (negb (Nat.eqb n 0)) (split slash path) in
      let path := Str.join "/" comps in
      let path := String.concat "" (repeat "/" n) +:+ path in
      match path with
      | EmptyString => "."
      | _ => path
      end
  end.

(** [abspath(path)] in a process whose working directory is [cwd]. *)
Definition abspath (cwd path : string) : string :=
  normpath (if isabs path then path else join2 cwd path).

(** [basename(p)]: what follows the last slash. *)
Definition basename (p : string) : string :=
  last (split slash p) "".

(** [dirname(p)]: what precedes the last slash, with the trailing slashes
    removed unless there is nothing else. *)
Definition dirname (p : string) : string :=
  match removelast (split slash p) with
  | [] => ""
  | comps =>
      let head := Str.join "/" comps +:+ "/" in
      if all_slashes head then head else rstrip_slash head
  end.

(** [genericpath.commonprefix] of two lists: their longest common
    prefix. *)
Fixpoint commonprefix (a b : list string) : list string :=
  match a, b with
  | x :: a', y :: b' => if String.eqb x y then x :: commonprefix a' b' else []
  | _, _ => []
  end.

Definition nonempty (s : string) : bool := negb (String.eqb s "").

(** The components of [abspath(p)]: [[x for x in abspath(p).split(sep) if x]] *)
Definition abs_list (cwd p : string) : list string :=
  filter nonempty (split slash (abspath cwd p)).

(** [relpath(path, start)] *)
Definition relpath (cwd path start : string) : result string :=
  match path with
  | EmptyString => Raise ValueError
  | _ =>
      let start_list := abs_list cwd start in
      let path_list := abs_list cwd path in
      let i := List.length (commonprefix start_list path_list) in
      let rel_list :=
        repeat ".." (List.length start_list - i) ++ skipn i path_list in
      match rel_list with
      | [] => Ok "."
      | a :: p => Ok (join a p)
      end
  end.

End PosixPath.

(** ** [hashlib.sha256]

    SHA-256 as in FIPS 180-4, on 32-bit words held in [N]. A hash object is
    the sequence of bytes it has been fed: [update] appends, and the digest
    is computed from the whole sequence, so that successive updates are the
    same as one update with the concatenation. *)

Definition bytes := list byte.

Module Sha256.
Local Open Scope N_scope.

Definition mask32 : N := 0xffffffff.
Definition add32 (a b : N) : N := N.land (a + b) mask32.
Definition rotr (n x : N) : N :=
  N.lor (N.shiftr x n) (N.land (N.shiftl x (32 - n)) mask32).
Definition not32 (x : N) : N := N.lxor x mask32.

Definition Ch (x y z : N) := N.lxor (N.land x y) (N.land (not32 x) z).
Definition Maj (x y z : N) :=
  N.lxor (N.lxor (N.land x y) (N.land x z)) (N.land y z).
Definition Sigma0 (x : N) := N.lxor (N.lxor (rotr 2 x) (rotr 13 x)) (rotr 22 x).
Definition Sigma1 (x : N) := N.lxor (N.lxor (rotr 6 x) (rotr 11 x)) (rotr 25 x).
Definition sigma0 (x : N) := N.lxor (N.lxor (rotr 7 x) (rotr 18 x)) (N.shiftr x 3).
Definition sigma1 (x : N) := N.lxor (N.lxor (rotr 17 x) (rotr 19 x)) (N.shiftr x 10).

(** The constants are the first 32 bits of the fractional parts of the cube
    roots (for [K]) and of the square roots (for [H0]) of the first primes. *)
Definition is_prime (n : N) : bool :=
  (2 <=? n)
  && forallb (fun d => negb (n mod (N.of_nat d) =? 0))
             (seq 2 (N.to_nat n - 2)).

Definition primes (k : nat) : list N :=
  firstn k (filter is_prime (map N.of_nat (seq 2 400))).

Fixpoint cube_root_from (bit : nat) (x acc : N) : N :=
  match bit with
  | O => acc
  | S b =>
      let cand := N.lor acc (N.shiftl 1 (N.of_nat b)) in
      cube_root_from b x (if cand * cand * cand <=? x then cand else acc)
  end.

Definition cube_root (x : N) : N := cube_root_from 40 x 0.

Definition K : list N :=
  Eval vm_compute in
    map (fun p => N.land (cube_root (N.shiftl p 96)) mask32) (primes 64).

Definition H0 : list N :=
  Eval vm_compute in
    map (fun p => N.land (N.sqrt (N.shiftl p 64)) mask32) (primes 8).

(** Big-endian bytes of a number, [n] of them. *)
Fixpoint be_bytes (n : nat) (x : N) : list N :=
  match n with
  | O => []
  | S k => N.land (N.shiftr x (8 * N.of_nat k)) 0xff :: be_bytes k x
  end.

Definition pad (msg : list N) : list N :=
  let len := N.of_nat (List.length msg) in
  let zeros := N.to_nat ((119 - len mod 64) mod 64) in
  msg ++ [0x80] ++ repeat 0 zeros ++ be_bytes 8 (8 * len).

Definition word_of (b : list N) : N :=
  fold_left (fun acc x => N.lor (N.shiftl acc 8) x) b 0.

(** Cut a list into pieces of [n] elements; [fuel] bounds the number of
    pieces. *)
Fixpoint chunks {A} (fuel n : nat) (l : list A) : list (list A) :=
  match fuel, l with
  | O, _ | _, [] => []
  | S f, _ => firstn n l :: chunks f n (skipn n l)
  end.

(** The 64 rounds over a sliding window of the message schedule. *)
Fixpoint rounds (ks : list N) (w : list N) (st : list N) : list N :=
  match ks, w, st with
  | k :: ks', wt :: w', [a; b; c; d; e; f; g; h] =>
      let t1 := add32 (add32 (add32 (add32 h (Sigma1 e)) (Ch e f g)) k) wt in
      let t2 := add32 (Sigma0 a) (Maj a b c) in
      let wnew := add32 (add32 (add32 (sigma1 (nth 14 w 0)) (nth 9 w 0))
                               (sigma0 (nth 1 w 0))) wt in
      rounds ks' (w' ++ [wnew]) [add32 t1 t2; a; b; c; add32 d t1; e; f; g]
  | _, _, _ => st
  end.

Definition compress (st : list N) (block : list N) : list N :=
  let w := map word_of (chunks 16 4 block) in
  map (fun p => add32 (fst p) (snd p)) (combine st (rounds K w st)).

Definition digest_words (msg : list N) : list N :=
  let p := pad msg in
  fold_left compress (chunks (List.length p) 64 p) H0.

Definition hex_digit (x : N) : ascii :=
  nth (N.to_nat x) (list_ascii_of_string "0123456789abcdef") "0"%char.

Definition hex_byte (x : N) : string :=
  String (hex_digit (N.shiftr x 4)) (String (hex_digit (N.land x 0xf)) "").

(** [hashlib.sha256(msg).hexdigest()] *)
Definition hexdigest (msg : bytes) : string :=
  String.concat ""
    (map hex_byte
         (flat_map (be_bytes 4) (digest_words (map Byte.to_N msg)))).

End Sha256.

Definition encode (s : string) : bytes := list_byte_of_string s.

Import Str PosixPath.

(** ** The file system and the [os] calls on it *)

#[local] Set Warnings "-register-all".
Inductive node :=
| File (mtime : Z) (data : bytes)
| Dir (mtime : Z) (entries : list (string * node)).
#[local] Set Warnings "register-all".

(** The state of the process as the program sees it: the file tree and the
    working directory (an absolute path). *)
Record world := { root : node; cwd : string }.

Module Os.

Fixpoint lookup (name : string) (es : list (string * node)) : option node :=
  match es with
  | [] => None
  | (k, n) :: r => if String.eqb k name then Some n else lookup name r
  end.

(** The node at a location, given by its names from the root. *)
Fixpoint get (n : node) (loc : list string) : option node :=
  match loc with
  | [] => Some n
  | s :: r =>
      match n with
      | Dir _ es =>
          match lookup s es with
          | Some c => get c r
          | None => None
          end
      | File _ _ => None
      end
  end.

(** Path resolution by the kernel: the components are followed one at a
    time from location [loc]; every component is looked up in a
    directory. *)
Fixpoint follow (fs : node) (loc : list string) (comps : list string)
  : errno + list string :=
  match comps with
  | [] => inr loc
  | c :: rest =>
      match get fs loc with
      | Some (Dir _ es) =>
          if String.eqb c "" || String.eqb c "." then follow fs loc rest
          else if String.eqb c ".." then follow fs (removelast loc) rest
          else match lookup c es with
               | Some _ => follow fs (loc ++ [c]) rest
               | None => inl ENOENT
               end
      | Some (File _ _) => inl ENOTDIR
      | None => inl ENOENT
      end
  end.

Definition resolve (w : world) (p : string) : errno + list string :=
  match p with
  | EmptyString => inl ENOENT
  | _ =>
      if isabs p then follow (root w) [] (split slash p)
      else match follow (root w) [] (split slash (cwd w)) with
           | inr loc => follow (root w) loc (split slash p)
           | inl e => inl e
           end
  end.

Definition stat (w : world) (p : string) : result node :=
  match resolve w p with
  | inr loc =>
      match get (root w) loc with
      | Some n => Ok n
      | None => Raise (OSError ENOENT)
      end
  | inl e => Raise (OSError e)
  end.

(** [os.path.isdir], [os.path.isfile]: false when [stat] fails. *)
Definition isdir (w : world) (p : string) : bool :=
  match stat w p with
  | Ok (Dir _ _) => true
  | _ => false
  end.

Definition isfile (w : world) (p : string) : bool :=
  match stat w p with
  | Ok (File _ _) => true
  | _ => false
  end.

(** [os.path.getmtime], in seconds. *)
Definition getmtime (w : world) (p : string) : result Z :=
  n <- stat w p ;;
  match n with
  | File m _ | Dir m _ => Ok m
  end.

(** [open(p, 'rb')] and the bytes the successive reads return. *)
Definition read_file (w : world) (p : string) : result bytes :=
  n <- stat w p ;;
  match n with
  | File _ data => Ok data
  | Dir _ _ => Raise (OSError EISDIR)
  end.

(** [os.listdir] *)
Definition listdir (w : world) (p : string) : result (list string) :=
  n <- stat w p ;;
  match n with
  | Dir _ es => Ok (map fst es)
  | File _ _ => Raise (OSError ENOTDIR)
  end.

(** The tree without the entry at [loc]. *)
Fixpoint remove_at (n : node) (loc : list string) : node :=
  match loc, n with
  | [s], Dir m es =>
      Dir m (filter (fun e => negb (String.eqb (fst e) s)) es)
  | s :: r, Dir m es =>
      Dir m (map (fun e => if String.eqb (fst e) s
                           then (fst e, remove_at (snd e) r) else e) es)
  | _, _ => n
  end.

(** [os.remove]: unlinks a regular file. *)
Definition remove (w : world) (p : string) : result world :=
  match resolve w p with
  | inr loc =>
      match get (root w) loc with
      | Some (File _ _) =>
          Ok {| root := remove_at (root w) loc; cwd := cwd w |}
      | Some (Dir _ _) => Raise (OSError EISDIR)
      | None => Raise (OSError ENOENT)
      end
  | inl e => Raise (OSError e)
  end.

(** [os.chdir] *)
Definition chdir (w : world) (p : string) : result world :=
  match resolve w p with
  | inr loc =>
      match get (root w) loc with
      | Some (Dir _ _) =>
          Ok {| root := root w; cwd := "/" +:+ Str.join "/" loc |}
      | Some (File _ _) => Raise (OSError ENOTDIR)
      | None => Raise (OSError ENOENT)
      end
  | inl e => Raise (OSError e)
  end.

Definition is_dir_node (n : node) : bool :=
  match n with Dir _ _ => true | File _ _ => false end.

Definition dirs_of (es : list (string * node)) : list string :=
  map fst (filter (fun e => is_dir_node (snd e)) es).

Definition files_of (es : list (string * node)) : list string :=
  map fst (filter (fun e => negb (is_dir_node (snd e))) es).

(** [os.walk(top)], top-down, over the tree below [n]: the triples
    [(root, dirs, files)] it yields. *)
Fixpoint walk_node (top : string) (n : node)
  : list (string * list string * list string) :=
  match n with
  | File _ _ => []
  | Dir _ es =>
      (top, dirs_of es, files_of es)
        :: (fix sub (l : list (string * node)) :=
              match l with
              | [] => []
              | (name, c) :: r => walk_node (join2 top name) c ++ sub r
              end) es
  end.

(** [os.walk] ignores a [top] that cannot be listed. *)
Definition walk (w : world) (top : string)
  : list (string * list string * list string) :=
  match stat w top with
  | Ok n => walk_node top n
  | Raise _ => []
  end.

End Os.

(** [list.sort()] on strings. The order on strings is total, so the sorted
    list does not depend on the sorting algorithm. *)
Fixpoint insert_sorted (x : string) (l : list string) : list string :=
  match l with
  | [] => [x]
  | y :: r => if String.leb x y then x :: l else y :: insert_sorted x r
  end.

Definition sort (l : list string) : list string :=
  fold_right insert_sorted [] l.

(** ** hash.py *)

(** How a run of the program ends: the response written to standard output,
    [abort], or an exception nobody catches. *)
Record response := { filename : string; build_command_out : string }.

Inductive outcome :=
| Done (r : response)
| Aborted (message : string)
| Crashed (e : exn).

Definition exit_status (o : outcome) : Z :=
  match o with
  | Done _ => 0
  | Aborted _ | Crashed _ => 1
  end.

Definition stdout_of (o : outcome) : option response :=
  match o with
  | Done r => Some r
  | _ => None
  end.


(** [abort(message)] *)
Definition abort (message : string) : outcome := Aborted message.

(** *** delete_old_archives

    The sweep is written over the three [os] calls it makes, so that it can
    also be run against a directory that other processes change between two
    calls. *)

Class OsCalls (W : Type) := {
  os_listdir : W -> string -> result (list string);
  os_getmtime : W -> string -> result Z;
  os_remove : W -> string -> result W
}.

#[export] Instance tree_calls : OsCalls world := {
  os_listdir := Os.listdir;
  os_getmtime := Os.getmtime;
  os_remove := Os.remove
}.

Definition seven_days : Z := 7 * 24 * 60 * 60.

Section Sweep.
Context {W : Type} `{OsCalls W}.

(** The body of the [try]. *)
Definition examine (now : Z) (w : W) (name : string) : result W :=
  file_modified <- os_getmtime w name ;;
  if (file_modified <? now - seven_days)%Z then os_remove w name else Ok w.

(** One turn of the loop over the names. *)
Definition sweep_name (now : Z) (w : W) (name : string) : result W :=
  if endswith name ".zip" then
    match examine now w name with
    | Raise (OSError e) =>
        if errno_eqb e ENOENT then Ok w else Raise (OSError e)
    | r => r
    end
  else Ok w.

Fixpoint sweep_names (now : Z) (w : W) (names : list string) : result W :=
  match names with
  | [] => Ok w
  | name :: rest => w' <- sweep_name now w name ;; sweep_names now w' rest
  end.

Definition delete_old_archives (now : Z) (w : W) : result W :=
  names <- os_listdir w "builds" ;;
  sweep_names now w names.

End Sweep.

(** *** list_files *)

Definition list_files (w : world) (top_path : string) : list string :=
  sort (flat_map (fun t => map (join2 (fst (fst t))) (snd t))
                 (Os.walk w top_path)).

(** *** update_hash *)

(** The successive results of [open_file.read(n)] on a file holding [data]. *)
Fixpoint read_chunks (fuel n : nat) (data : bytes) : list bytes :=
  match fuel, data with
  | O, _ | _, [] => []
  | S f, _ => firstn n data :: read_chunks f n (skipn n data)
  end.

Definition update (hash_obj : bytes) (data : bytes) : bytes :=
  hash_obj ++ data.

Definition update_hash (w : world) (hash_obj : bytes)
           (file_root file_path : string) : result bytes :=
  relative_path <- relpath (cwd w) file_path file_root ;;
  let hash_obj := update hash_obj (encode relative_path) in
  data <- Os.read_file w file_path ;;
  Ok (fold_left update (read_chunks (List.length data) 1024 data) hash_obj).

(** *** generate_content_hash *)

Fixpoint update_hash_files (w : world) (hash_obj : bytes)
         (source_dir : string) (files : list string) : result bytes :=
  match files with
  | [] => Ok hash_obj
  | source_file :: rest =>
      h <- update_hash w hash_obj source_dir source_file ;;
      update_hash_files w h source_dir rest
  end.

Definition hash_source_path (w : world) (hash_obj : bytes)
           (source_path : string) : result bytes :=
  if Os.isdir w source_path
  then update_hash_files w hash_obj source_path (list_files w source_path)
  else update_hash w hash_obj (dirname source_path) source_path.

Fixpoint hash_source_paths (w : world) (hash_obj : bytes)
         (source_paths : list string) : result bytes :=
  match source_paths with
  | [] => Ok hash_obj
  | source_path :: rest =>
      h <- hash_source_path w hash_obj source_path ;;
      hash_source_paths w h rest
  end.

Definition generate_content_hash (w : world) (source_paths : list string)
  : result bytes :=
  hash_source_paths w [] source_paths.

(** *** get_abs_dirname *)

Definition get_abs_dirname (w : world) (p : string) : string :=
  let p := abspath (cwd w) p in
  if Os.isfile w p then basename p else p.

(** *** build_relative_path *)

(** The loop that collects the common leading elements: [belem] is indexed
    at [len(selem)], which raises once [belem] is used up. *)
Fixpoint same_elems (belem : list string) (selem : list string)
         (aelem : list string) : result (list string) :=
  match aelem with
  | [] => Ok selem
  | e :: rest =>
      match nth_error belem (List.length selem) with
      | None => Raise IndexError
      | Some b =>
          if String.eqb e b then same_elems belem (selem ++ [e]) rest
          else Ok selem
      end
  end.

Definition build_relative_path (w : world) (a b : string) : result string :=
  let aa := get_abs_dirname w a in
  let ba := get_abs_dirname w b in
  if String.eqb aa ba then Ok a
  else
    let aelem := split slash aa in
    let belem := split slash ba in
    selem <- same_elems belem [] aelem ;;
    if (List.length selem <? 2)%nat then Ok aa
    else
      let s := Str.join "/" selem in
      let rem := replace ba s "" in
      let rem := replace_count rem "/" "" (Some 1%nat) in
      let relem := split slash rem in
      let rel_path := fold_left (fun rel_path _ => rel_path +:+ "../") relem "" in
      Ok (rel_path +:+ a).

(** *** The program *)

Record query := {
  build_command : string;
  build_paths : list string;
  module_relpath : string;
  runtime : string;
  source_path : string
}.

Fixpoint map_result {A B} (f : A -> result B) (l : list A) : result (list B) :=
  match l with
  | [] => Ok []
  | x :: r => y <- f x ;; ys <- map_result f r ;; Ok (y :: ys)
  end.

Definition run (r : result response) : outcome :=
  match r with
  | Ok resp => Done resp
  | Raise e => Crashed e
  end.

(** The hash of the source paths, then of the runtime and of the build
    command, in hexadecimal. *)
Definition content_digest (w : world) (hash_dirs : list string)
           (runtime build_command : string) : result string :=
  content_hash <- generate_content_hash w hash_dirs ;;
  let content_hash := update content_hash (encode runtime) in
  let content_hash := update content_hash (encode build_command) in
  Ok (Sha256.hexdigest content_hash).

Section Program.
(** [resolve_path cwd p] is [os.path.abspath(p)] as the platform provides
    it, and [set_order l] is [list(set(l))]: the elements of [l] without
    repetition, in the iteration order of the interpreter's set. *)
Variable resolve_path : string -> string -> string.
Variable set_order : list string -> list string.

Definition main (now : Z) (w : world) (query : query) : outcome :=
  match resolve_path (cwd w) (source_path query) with
  | EmptyString => abort "source_path must be set."
  | _ =>
      run (
        final_source_path <-
          build_relative_path w (source_path query) (module_relpath query) ;;
        hash_dirs <-
          map_result (fun dir => build_relative_path w dir (module_relpath query))
                     (build_paths query) ;;
        let hash_dirs := set_order (final_source_path :: hash_dirs) in
        w <- Os.chdir w (module_relpath query) ;;
        content_hash <-
          content_digest w hash_dirs (runtime query) (build_command query) ;;
        let filename := "builds/" +:+ content_hash +:+ ".zip" in
        let build_command := replace (build_command query) "$filename" filename in
        let build_command := replace build_command "$runtime" (runtime query) in
        let build_command := replace build_command "$source" final_source_path in
        _ <- delete_old_archives now w ;;
        Ok {| filename := filename; build_command_out := build_command |})
  end.

End Program.

(** * Vocabulary of the statements *)

(** ** Names and paths *)

Fixpoint slash_free (s : string) : bool :=
  match s with
  | EmptyString => true
  | String c r => negb (Ascii.eqb c slash) && slash_free r
  end.

(** A component that [normpath] keeps: not empty, not [.] and not [..]. *)
Definition is_name (c : string) : bool :=
  negb (String.eqb c "") && negb (String.eqb c ".") && negb (String.eqb c "..").

(** A name a directory can list. *)
Definition valid_name (s : string) : bool :=
  slash_free s && negb (String.eqb s "") && negb (String.eqb s ".")
  && negb (String.eqb s "..").

(** What [abspath] normalizes. *)
Definition abs_input (cwd p : string) : string :=
  if isabs p then p else join2 cwd p.

(** The components a path is resolved from. *)
Definition path_comps (cwd p : string) : list string :=
  if isabs p then split slash p else split slash cwd ++ split slash p.

(** [n] slashes, as [normpath] puts them in front. *)
Definition slashes (n : nat) : string := String.concat "" (repeat "/" n).

Fixpoint slash_run (j : nat) : string :=
  match j with
  | O => ""
  | S j' => String slash (slash_run j')
  end.

(** A string onto which [join] adds a slash before a name. *)
Definition open_end (acc : string) : Prop :=
  acc <> "" /\ endswith acc "/" = false.

(** [R] is the path [r0] moved below the prefix [P]. *)
Definition moved (P R r0 : string) : Prop :=
  forall k, valid_name k = true -> join2 R k = P +:+ join2 r0 k.

(** [n] times [../] *)
Fixpoint climb (n : nat) : string :=
  match n with
  | O => ""
  | S k => "../" +:+ climb k
  end.

(** [s] occurs in [t]. *)
Fixpoint occurs (t s : string) : bool :=
  startswith t s
  || match t with
     | EmptyString => false
     | String _ r => occurs r s
     end.


(** The loop of [build_relative_path], by recursion on what is left of both
    lists. *)
Fixpoint same_elems_left (selem aelem brest : list string)
  : result (list string) :=
  match aelem, brest with
  | [], _ => Ok selem
  | _ :: _, [] => Raise IndexError
  | e :: ar, b :: br =>
      if String.eqb e b then same_elems_left (selem ++ [e]) ar br
      else Ok selem
  end.

(** ** File trees *)

(** A directory lists every name once, and every name is valid. *)
Fixpoint wf_node (n : node) : bool :=
  match n with
  | File _ _ => true
  | Dir _ es =>
      (fix go (l : list (string * node)) : bool :=
         match l with
         | [] => true
         | (k, c) :: r =>
             valid_name k && negb (existsb (String.eqb k) (map fst r))
             && wf_node c && go r
         end) es
  end.

Fixpoint wf_entries (l : list (string * node)) : bool :=
  match l with
  | [] => true
  | (k, c) :: r =>
      valid_name k && negb (existsb (String.eqb k) (map fst r))
      && wf_node c && wf_entries r
  end.

(** The regular files of one directory with their content; [top] is the
    path given for the directory. *)
Definition level_files (top : string) (es : list (string * node))
  : list (string * bytes) :=
  flat_map (fun e => match snd e with
                     | File _ d => [(join2 top (fst e), d)]
                     | Dir _ _ => []
                     end) es.

(** The regular files below a directory with their content, in the order
    [os.walk] meets them. From the empty path, the paths are the names
    relative to the directory. *)
Fixpoint walk_data (top : string) (n : node) : list (string * bytes) :=
  match n with
  | File _ _ => []
  | Dir _ es =>
      level_files top es
        ++ (fix sub (l : list (string * node)) :=
              match l with
              | [] => []
              | (name, c) :: r => walk_data (join2 top name) c ++ sub r
              end) es
  end.

(** The inner loops of [walk_data] and of [Os.walk_node]. *)
Fixpoint sub_data (top : string) (l : list (string * node))
  : list (string * bytes) :=
  match l with
  | [] => []
  | (name, c) :: r => walk_data (join2 top name) c ++ sub_data top r
  end.

Fixpoint sub_walk (top : string) (l : list (string * node))
  : list (string * list string * list string) :=
  match l with
  | [] => []
  | (name, c) :: r => Os.walk_node (join2 top name) c ++ sub_walk top r
  end.

(** The paths [list_files] collects from the triples of [os.walk]. *)
Definition walk_paths (ts : list (string * list string * list string))
  : list string :=
  flat_map (fun t => map (join2 (fst (fst t))) (snd t)) ts.

Definition shift (P : string) (e : string * bytes) : string * bytes :=
  (P +:+ fst e, snd e).

(** The content recorded for a path in a listing. *)
Definition file_data (l : list (string * bytes)) (r : string) : bytes :=
  match find (fun e => String.eqb (fst e) r) l with
  | Some e => snd e
  | None => []
  end.

(** A listing records one content for a path. *)
Definition functional (l : list (string * bytes)) : Prop :=
  forall r d d', In (r, d) l -> In (r, d') l -> d = d'.

(** What hashing a directory feeds to the hash: for every file below it, in
    the order of the relative paths, the relative path and the content. *)
Definition dir_stream (l : list (string * bytes)) : bytes :=
  flat_map (fun r => encode r ++ file_data l r) (sort (map fst l)).

(** Two inputs with the same content: directories that hold the same files
    (the same bytes under the same relative names, listed in any order), or
    regular files with the same name and the same bytes. Where the inputs
    lie, and when they were modified, is free. *)
Inductive same_content (w1 w2 : world) (p1 p2 : string) : Prop :=
| same_dir m1 es1 m2 es2 :
    Os.stat w1 p1 = Ok (Dir m1 es1) -> Os.stat w2 p2 = Ok (Dir m2 es2) ->
    wf_node (Dir m1 es1) = true -> wf_node (Dir m2 es2) = true ->
    Permutation (walk_data "" (Dir m1 es1)) (walk_data "" (Dir m2 es2)) ->
    same_content w1 w2 p1 p2
| same_file m1 m2 d :
    Os.stat w1 p1 = Ok (File m1 d) -> Os.stat w2 p2 = Ok (File m2 d) ->
    basename p1 = basename p2 ->
    same_content w1 w2 p1 p2.

(** ** Sets of strings *)

(** [list(set(l))] in an interpreter whose set iterates in the order of
    first insertion. *)
Fixpoint dedup (l : list string) : list string :=
  match l with
  | [] => []
  | x :: r => x :: filter (fun y => negb (String.eqb y x)) (dedup r)
  end.

(** ** Example worlds *)

Definition file_at (mtime : Z) (s : string) : node := File mtime (encode s).

Definition now0 : Z := 2000000.
Definition ten_days_ago : Z := now0 - 10 * 86400.
Definition one_day_ago : Z := now0 - 1 * 86400.

Definition fn_tree : node :=
  Dir 5 [("main.py", file_at 10 "print(1)"); ("b.py", file_at 11 "pass");
         ("lib", Dir 12 [("util.py", file_at 13 "x = 1")])].

(** A copy of [fn_tree], made later and listed in another order. *)
Definition fn_copy : node :=
  Dir 50 [("b.py", file_at 60 "pass");
          ("lib", Dir 70 [("util.py", file_at 80 "x = 1")]);
          ("main.py", file_at 90 "print(1)")].

Definition repo_tree : node :=
  Dir 1
    [("repo",
      Dir 2
        [("fn", fn_tree);
         ("shared", Dir 20 [("a.txt", file_at 21 "hello")]);
         ("mod",
          Dir 30
            [("builds",
              Dir 31 [("old.zip", file_at ten_days_ago "PK-old");
                      ("new.zip", file_at one_day_ago "PK-new")])])]);
     ("backup",
      Dir 40 [("copy", Dir 41 [("fn", fn_copy)]);
              ("a.txt", file_at 42 "hello")])].

Definition w_repo : world := {| root := repo_tree; cwd := "/repo" |}.
Definition w_mod : world := {| root := repo_tree; cwd := "/repo/mod" |}.
Definition w_backup : world := {| root := repo_tree; cwd := "/backup/copy" |}.

Definition w_ab : world :=
  {| root := Dir 0 [("src", Dir 0 [("ab", file_at 0 "c")])]; cwd := "/" |}.
Definition w_a_bc : world :=
  {| root := Dir 0 [("src", Dir 0 [("a", file_at 0 "bc")])]; cwd := "/" |}.

Definition query_ab : query :=
  {| build_command := "zip $filename $source";
     build_paths := ["shared"; "fn/lib"];
     module_relpath := "mod";
     runtime := "go1.x";
     source_path := "fn" |}.

Definition query_ba : query :=
  {| build_command := "zip $filename $source";
     build_paths := ["fn/lib"; "shared"];
     module_relpath := "mod";
     runtime := "go1.x";
     source_path := "fn" |}.


Definition filename_of (o : outcome) : option string :=
  option_map filename (stdout_of o).


(** ** Orders, shapes and changes of trees *)

(** The order of [sort] on [str]. *)
Definition le_string (a b : string) : Prop := String.leb a b = true.

(** A lowercase hexadecimal digit. *)
Definition is_hex_lower (c : ascii) : bool :=
  existsb (Ascii.eqb c) (list_ascii_of_string "0123456789abcdef").

Fixpoint string_forall (f : ascii -> bool) (s : string) : bool :=
  match s with
  | EmptyString => true
  | String c r => f c && string_forall f r
  end.

(** The tree with every modification time changed by [f]. *)
Fixpoint retime (f : Z -> Z) (n : node) : node :=
  match n with
  | File m d => File (f m) d
  | Dir m es =>
      Dir (f m)
          ((fix go (l : list (string * node)) :=
              match l with
              | [] => []
              | (k, c) :: r => (k, retime f c) :: go r
              end) es)
  end.

Fixpoint retime_entries (f : Z -> Z) (l : list (string * node))
  : list (string * node) :=
  match l with
  | [] => []
  | (k, c) :: r => (k, retime f c) :: retime_entries f r
  end.

Definition retime_world (f : Z -> Z) (w : world) : world :=
  {| root := retime f (root w); cwd := cwd w |}.

(** The first location leads to the second. *)
Definition is_prefix (l1 l2 : list string) : Prop := exists r, l2 = l1 ++ r.

(** What the sweep takes for an old file. *)
Definition old_file (now : Z) (n : node) : bool :=
  match n with
  | File m _ => (m <? now - seven_days)%Z
  | Dir _ _ => false
  end.

(** The entries the sweep removes from the working directory, given the names
    that [builds] lists. *)
Definition swept (now : Z) (names : list string) (e : string * node) : bool :=
  existsb (String.eqb (fst e)) names && endswith (fst e) ".zip"
  && old_file now (snd e).

(** What the program has written, if anything. *)
Definition response_of (o : outcome) : response :=
  match o with
  | Done r => r
  | _ => {| filename := ""; build_command_out := "" |}
  end.

(** ** More example worlds *)



(** The entries of a working directory with an archive of ten days and an
    archive of one day, both listed in [builds] too. *)
Definition old_entries : list (string * node) :=
  [("builds", Dir 0 [("old.zip", file_at ten_days_ago "PK");
                     ("new.zip", file_at one_day_ago "PK")]);
   ("old.zip", file_at ten_days_ago "PK");
   ("new.zip", file_at one_day_ago "PK");
   ("notes.txt", file_at 0 "old")].

(** The working directory [/srv] with these entries. *)
Definition w_old : world :=
  {| root := Dir 0 [("srv", Dir 0 old_entries)]; cwd := "/srv" |}.

(** The same without the older archive of the working directory. *)
Definition w_old_swept : world :=
  {| root :=
       Dir 0 [("srv",
               Dir 0 [("builds", Dir 0 [("old.zip", file_at ten_days_ago "PK");
                                        ("new.zip", file_at one_day_ago "PK")]);
                      ("new.zip", file_at one_day_ago "PK");
                      ("notes.txt", file_at 0 "old")])];
     cwd := "/srv" |}.

(** A query whose build command has no placeholder. *)
Definition query_plain : query :=
  {| build_command := "make -C src build";
     build_paths := ["shared"];
     module_relpath := "mod";
     runtime := "python3.8";
     source_path := "fn" |}.

(** The module directory [shared] holds no [builds] directory. *)
Definition query_no_builds : query :=
  {| build_command := "zip $filename $source";
     build_paths := [];
     module_relpath := "shared";
     runtime := "go1.x";
     source_path := "fn" |}.

(** * Facts and theorems *)

#[local] Arguments Ascii.eqb : simpl never.

(** ** Facts on strings *)

Lemma append_nil_r s : s +:+ "" = s.
Proof. induction s; simpl; congruence. Qed.

Lemma append_assoc s t u : (s +:+ t) +:+ u = s +:+ t +:+ u.
Proof. induction s; simpl; congruence. Qed.

Lemma split_not_nil sep s : split sep s <> [].
Proof.
  destruct s as [|c r]; simpl; [discriminate|].
  destruct (Ascii.eqb c sep); [discriminate|].
  destruct (split sep r); discriminate.
Qed.

Lemma split_cons sep s : exists h t, split sep s = h :: t.
Proof.
  destruct (split sep s) eqn:E; [now apply split_not_nil in E|eauto].
Qed.

Lemma split_app_sep sep s t :
  split sep (s +:+ String sep t) = split sep s ++ split sep t.
Proof.
  induction s as [|c r IH]; simpl.
  - now rewrite Ascii.eqb_refl.
  - destruct (Ascii.eqb c sep); [now rewrite IH|].
    rewrite IH. destruct (split_cons sep r) as (h & tl & ->). reflexivity.
Qed.

Lemma split_slash_free s : slash_free s = true -> split slash s = [s].
Proof.
  induction s as [|c r IH]; simpl; [reflexivity|].
  intros H. apply andb_prop in H as [Hc Hr].
  apply negb_true_iff in Hc. rewrite Hc, (IH Hr). reflexivity.
Qed.

Lemma split_elems_slash_free s : Forall (fun x => slash_free x = true) (split slash s).
Proof.
  induction s as [|c r IH]; simpl.
  - repeat constructor.
  - destruct (Ascii.eqb c slash) eqn:E.
    + constructor; [reflexivity|assumption].
    + destruct (split_cons slash r) as (h & t & Hs). rewrite Hs in *.
      inversion IH; subst.
      constructor; [|assumption]. simpl. now rewrite E.
Qed.

Lemma split_join l :
  l <> [] -> Forall (fun x => slash_free x = true) l ->
  split slash (Str.join "/" l) = l.
Proof.
  induction l as [|x r IH]; [congruence|].
  intros _ H. inversion H; subst. unfold Str.join in *. simpl.
  destruct r as [|y r'].
  - now apply split_slash_free.
  - change (x +:+ "/" +:+ String.concat "/" (y :: r'))
      with (x +:+ String slash (String.concat "/" (y :: r'))).
    rewrite split_app_sep, split_slash_free by assumption.
    simpl. f_equal. apply IH; [discriminate|assumption].
Qed.

Lemma join_split s : Str.join "/" (split slash s) = s.
Proof.
  induction s as [|c r IH]; [reflexivity|]. simpl.
  destruct (Ascii.eqb_spec c slash) as [->|_].
  - unfold Str.join in *. simpl. destruct (split_cons slash r) as (h & t & E).
    rewrite E in *. now rewrite IH.
  - unfold Str.join in *. destruct (split_cons slash r) as (h & t & E).
    rewrite E in *. destruct t; simpl in *; now rewrite <- IH.
Qed.


Lemma valid_name_split c :
  valid_name c = true <-> slash_free c = true /\ is_name c = true.
Proof.
  unfold valid_name, is_name. rewrite !andb_true_iff. tauto.
Qed.

Lemma endswith_app s suf : endswith (s +:+ suf) suf = true.
Proof.
  induction s as [|c r IH].
  - simpl. destruct suf; cbn [endswith]; now rewrite String.eqb_refl.
  - cbn [String.append endswith]. rewrite IH. now destruct (String.eqb _ _).
Qed.

Lemma endswith_inv s suf : endswith s suf = true -> exists pre, s = pre +:+ suf.
Proof.
  induction s as [|c r IH]; cbn [endswith].
  - destruct (String.eqb_spec "" suf) as [<-|]; [now exists ""|discriminate].
  - destruct (String.eqb_spec (String c r) suf) as [<-|_].
    + now exists "".
    + intros H. destruct (IH H) as (pre & ->). now exists (String c pre).
Qed.

(** ** Facts on [normpath] *)


Lemma norm_step_dot abs st : norm_step abs st "." = st.
Proof. reflexivity. Qed.

Lemma norm_step_name abs st c :
  is_name c = true -> norm_step abs st c = st ++ [c].
Proof.
  unfold is_name, norm_step. rewrite !andb_true_iff, !negb_true_iff.
  intros [[-> ->] ->]. reflexivity.
Qed.

Lemma last_rev_names st :
  Forall (fun x => is_name x = true) st ->
  match rev st with l :: _ => String.eqb l ".." | [] => false end = false.
Proof.
  intros H. apply Forall_rev in H. destruct (rev st) as [|l t]; [reflexivity|].
  inversion H as [|? ? Hl _]; subst. unfold is_name in Hl.
  rewrite !andb_true_iff, !negb_true_iff in Hl. tauto.
Qed.

Lemma norm_step_dotdot st :
  Forall (fun x => is_name x = true) st ->
  norm_step true st ".." = removelast st.
Proof.
  intros H. unfold norm_step. simpl. now rewrite (last_rev_names st H).
Qed.

Lemma Forall_removelast {A} (P : A -> Prop) l :
  Forall P l -> Forall P (removelast l).
Proof.
  induction l as [|x r IH]; [trivial|]. intros H. inversion H; subst.
  simpl. destruct r; [constructor|]. constructor; auto.
Qed.

Lemma norm_step_names st c :
  Forall (fun x => is_name x = true) st ->
  Forall (fun x => is_name x = true) (norm_step true st c).
Proof.
  intros H. destruct (is_name c) eqn:E.
  - rewrite norm_step_name by assumption. apply Forall_app. split; auto.
  - unfold is_name in E. rewrite !andb_false_iff, !negb_false_iff in E.
    destruct E as [[E|E]|E]; apply String.eqb_eq in E; subst; auto.
    rewrite norm_step_dotdot by assumption. now apply Forall_removelast.
Qed.

Lemma norm_fold_names l st :
  Forall (fun x => is_name x = true) st ->
  Forall (fun x => is_name x = true) (fold_left (norm_step true) l st).
Proof.
  revert st. induction l as [|c r IH]; simpl; intros st H; [assumption|].
  apply IH. now apply norm_step_names.
Qed.

Lemma norm_step_slash_free abs st c :
  Forall (fun x => slash_free x = true) st -> slash_free c = true ->
  Forall (fun x => slash_free x = true) (norm_step abs st c).
Proof.
  intros H Hc. unfold norm_step.
  destruct (_ || _); [assumption|].
  destruct (_ || _); [apply Forall_app; split; auto|now apply Forall_removelast].
Qed.

Lemma norm_fold_slash_free abs l st :
  Forall (fun x => slash_free x = true) st ->
  Forall (fun x => slash_free x = true) l ->
  Forall (fun x => slash_free x = true) (fold_left (norm_step abs) l st).
Proof.
  revert st. induction l as [|c r IH]; simpl; intros st H Hl; [assumption|].
  inversion Hl; subst. apply IH; [|assumption]. now apply norm_step_slash_free.
Qed.

Lemma norm_fold_push abs l st :
  Forall (fun x => is_name x = true) l ->
  fold_left (norm_step abs) l st = st ++ l.
Proof.
  revert st. induction l as [|c r IH]; simpl; intros st H.
  - now rewrite app_nil_r.
  - inversion H; subst. rewrite norm_step_name, IH by assumption.
    now rewrite <- app_assoc.
Qed.


Lemma norm_fold_join2 abs a b st :
  isabs b = false ->
  fold_left (norm_step abs) (split slash (join2 a b)) st
  = fold_left (norm_step abs) (split slash a ++ split slash b) st.
Proof.
  intros Hb. unfold join2. unfold isabs in Hb. rewrite Hb.
  destruct (String.eqb_spec a "") as [->|Ha]; simpl orb.
  - reflexivity.
  - destruct (endswith a "/") eqn:E.
    + apply endswith_inv in E as (pre & ->).
      change (pre +:+ "/") with (pre +:+ String slash "").
      rewrite append_assoc. simpl String.append at 1.
      rewrite !split_app_sep. simpl split at 2.
      rewrite <- !app_assoc, !fold_left_app. reflexivity.
    + change (a +:+ "/" +:+ b) with (a +:+ String slash b).
      now rewrite split_app_sep.
Qed.


(** ** Facts on [abspath] and [relpath] *)

Lemma isabs_inv s : isabs s = true -> exists r, s = String slash r.
Proof.
  unfold isabs. destruct s as [|c r]; simpl; [discriminate|].
  rewrite andb_true_iff. intros [H _]. apply Ascii.eqb_eq in H. subst. eauto.
Qed.

Lemma initial_slashes_abs s :
  isabs s = true -> initial_slashes s = 1%nat \/ initial_slashes s = 2%nat.
Proof.
  unfold isabs, initial_slashes. intros ->. destruct (_ && _); auto.
Qed.

Lemma normpath_abs s :
  isabs s = true ->
  normpath s = slashes (initial_slashes s)
                 +:+ Str.join "/" (norm_comps true (split slash s)).
Proof.
  intros H. destruct (initial_slashes_abs s H) as [E|E];
    destruct (isabs_inv s H) as (r & ->); unfold normpath; rewrite E;
    reflexivity.
Qed.

Lemma isabs_app s t : isabs s = true -> isabs (s +:+ t) = true.
Proof. intros H. destruct (isabs_inv s H) as (r & ->). reflexivity. Qed.

Lemma isabs_abs_input cwd p : isabs cwd = true -> isabs (abs_input cwd p) = true.
Proof.
  intros H. unfold abs_input. destruct (isabs p) eqn:E; [assumption|].
  unfold join2. unfold isabs in E. rewrite E.
  destruct (_ || _); now apply isabs_app.
Qed.


Lemma valid_name_nonempty c : valid_name c = true -> nonempty c = true.
Proof.
  unfold valid_name, nonempty. rewrite !andb_true_iff. tauto.
Qed.

Lemma filter_nonempty_names l :
  Forall (fun x => valid_name x = true) l -> filter nonempty l = l.
Proof.
  induction 1 as [|x r Hx _ IH]; [reflexivity|]. simpl.
  now rewrite (valid_name_nonempty x Hx), IH.
Qed.

Lemma Forall_valid_slash_free l :
  Forall (fun x => valid_name x = true) l ->
  Forall (fun x => slash_free x = true) l.
Proof.
  apply Forall_impl. intros a H. now apply valid_name_split in H.
Qed.

Lemma Forall_valid_is_name l :
  Forall (fun x => valid_name x = true) l ->
  Forall (fun x => is_name x = true) l.
Proof.
  apply Forall_impl. intros a H. now apply valid_name_split in H.
Qed.

Lemma split_slashes_join n l :
  (n = 1 \/ n = 2)%nat -> Forall (fun x => valid_name x = true) l ->
  filter nonempty (split slash (slashes n +:+ Str.join "/" l)) = l.
Proof.
  intros Hn Hl.
  assert (E : filter nonempty (split slash (Str.join "/" l)) = l).
  { destruct l as [|x r]; [reflexivity|].
    rewrite split_join; [now apply filter_nonempty_names|discriminate|].
    now apply Forall_valid_slash_free. }
  destruct Hn as [-> | ->]; simpl; assumption.
Qed.

Lemma norm_comps_valid l :
  Forall (fun x => valid_name x = true) (norm_comps true (split slash l)).
Proof.
  unfold norm_comps.
  pose proof (norm_fold_names (split slash l) [] (Forall_nil _)) as H1.
  pose proof (norm_fold_slash_free true (split slash l) [] (Forall_nil _)
                (split_elems_slash_free l)) as H2.
  rewrite Forall_forall in *. intros x Hx. apply valid_name_split. auto.
Qed.

Lemma abs_list_input cwd p :
  isabs cwd = true ->
  abs_list cwd p = norm_comps true (split slash (abs_input cwd p)).
Proof.
  intros H. unfold abs_list, abspath. fold (abs_input cwd p).
  pose proof (isabs_abs_input cwd p H) as Hi.
  rewrite (normpath_abs _ Hi).
  apply split_slashes_join; [now apply initial_slashes_abs|].
  apply norm_comps_valid.
Qed.

Lemma abs_list_comps cwd p :
  isabs cwd = true -> abs_list cwd p = norm_comps true (path_comps cwd p).
Proof.
  intros H. rewrite abs_list_input by assumption.
  unfold abs_input, path_comps. destruct (isabs p) eqn:E; [reflexivity|].
  now apply norm_fold_join2.
Qed.

Lemma abs_list_valid cwd p :
  isabs cwd = true -> Forall (fun x => valid_name x = true) (abs_list cwd p).
Proof.
  intros H. rewrite abs_list_input by assumption. apply norm_comps_valid.
Qed.

Lemma endswith_slash_free b : slash_free b = true -> endswith b "/" = false.
Proof.
  induction b as [|c r IH]; [reflexivity|]. simpl slash_free.
  intros H. apply andb_prop in H as [Hc Hr]. cbn [endswith].
  rewrite (IH Hr). apply negb_true_iff in Hc.
  destruct (String.eqb_spec (String c r) "/") as [E|_]; [|reflexivity].
  inversion E; subst. discriminate.
Qed.

Lemma endswith_app_nonempty x b :
  b <> "" -> endswith (x +:+ b) "/" = endswith b "/".
Proof.
  intros Hb. induction x as [|c r IH]; [reflexivity|].
  cbn [String.append endswith]. rewrite IH.
  destruct (String.eqb_spec (String c (r +:+ b)) "/") as [E|_]; [|reflexivity].
  inversion E as [[Hc Hr]]. destruct r; simpl in Hr; [congruence|discriminate].
Qed.

Lemma valid_name_not_abs c : valid_name c = true -> startswith c "/" = false.
Proof.
  intros H. apply valid_name_split in H as [Hs _].
  destruct c as [|a r]; [reflexivity|]. simpl in Hs.
  apply andb_prop in Hs as [Ha _]. apply negb_true_iff in Ha.
  cbn [startswith]. fold slash. rewrite Ascii.eqb_sym, Ha. reflexivity.
Qed.

Lemma valid_name_neq_empty c : valid_name c = true -> c <> "".
Proof. intros H ->. discriminate. Qed.

Lemma join2_name acc b :
  open_end acc -> valid_name b = true -> join2 acc b = acc +:+ "/" +:+ b.
Proof.
  intros [Ha He] Hb. unfold join2.
  rewrite (valid_name_not_abs b Hb), He.
  destruct (String.eqb_spec acc ""); [contradiction|reflexivity].
Qed.

Lemma open_end_app acc b : valid_name b = true -> open_end (acc +:+ b).
Proof.
  intros Hb. split.
  - destruct acc; simpl; [now apply valid_name_neq_empty|discriminate].
  - rewrite endswith_app_nonempty by now apply valid_name_neq_empty.
    apply endswith_slash_free. now apply valid_name_split in Hb.
Qed.

Lemma join_names a p :
  Forall (fun x => valid_name x = true) (a :: p) ->
  PosixPath.join a p = Str.join "/" (a :: p).
Proof.
  intros H. inversion H as [|? ? Ha Hp]; subst. clear H.
  assert (Hgen : forall acc, open_end acc ->
            fold_left join2 p acc
            = match p with [] => acc | _ => acc +:+ "/" +:+ Str.join "/" p end).
  { induction Hp as [|b r Hb Hr IH]; intros acc Hacc; [reflexivity|].
    simpl fold_left. rewrite (join2_name acc b Hacc Hb).
    rewrite IH.
    - destruct r; [reflexivity|]. unfold Str.join. simpl.
      now rewrite !append_assoc.
    - replace (acc +:+ "/" +:+ b) with ((acc +:+ "/") +:+ b)
        by now rewrite append_assoc.
      now apply open_end_app. }
  unfold PosixPath.join. rewrite Hgen.
  - destruct p; reflexivity.
  - exact (open_end_app "" a Ha).
Qed.

Lemma commonprefix_app s r : commonprefix s (s ++ r) = s.
Proof.
  induction s as [|x s IH]; simpl; [now destruct r|].
  now rewrite String.eqb_refl, IH.
Qed.

Lemma skipn_app_length {A} (s r : list A) : skipn (List.length s) (s ++ r) = r.
Proof. induction s; simpl; auto. Qed.

Lemma relpath_under cwd top path rel :
  isabs cwd = true -> path <> "" -> rel <> [] ->
  Forall (fun x => valid_name x = true) rel ->
  norm_comps true (path_comps cwd path) = norm_comps true (path_comps cwd top) ++ rel ->
  relpath cwd path top = Ok (Str.join "/" rel).
Proof.
  intros Hc Hp Hr Hv E. unfold relpath.
  destruct path as [|c0 p0]; [congruence|].
  rewrite !abs_list_comps by assumption. rewrite E.
  rewrite commonprefix_app, Nat.sub_diag, skipn_app_length. simpl.
  destruct rel as [|a p]; [congruence|]. now rewrite join_names.
Qed.


(** ** Facts on file trees *)

Lemma wf_node_dir m es : wf_node (Dir m es) = wf_entries es.
Proof. simpl. induction es as [|[k c] r IH]; simpl; congruence. Qed.

Lemma walk_data_dir top m es :
  walk_data top (Dir m es) = level_files top es ++ sub_data top es.
Proof.
  simpl. f_equal. induction es as [|[k c] r IH]; simpl; congruence.
Qed.

Lemma walk_node_dir top m es :
  Os.walk_node top (Dir m es)
  = (top, Os.dirs_of es, Os.files_of es) :: sub_walk top es.
Proof.
  simpl. f_equal. induction es as [|[k c] r IH]; simpl; congruence.
Qed.

Lemma node_induction (P : node -> Prop) :
  (forall m d, P (File m d)) ->
  (forall m es, Forall (fun e => P (snd e)) es -> P (Dir m es)) ->
  forall n, P n.
Proof.
  intros Hf Hd. fix IH 1. intros [m d|m es]; [apply Hf|].
  apply Hd. induction es as [|[k c] r IHr]; constructor; [apply IH|exact IHr].
Qed.

Lemma level_files_paths top es :
  map fst (level_files top es) = map (join2 top) (Os.files_of es).
Proof.
  unfold level_files, Os.files_of.
  induction es as [|[k [m d|m l]] r IH]; simpl; congruence.
Qed.

Lemma walk_paths_app a b : walk_paths (a ++ b) = walk_paths a ++ walk_paths b.
Proof. unfold walk_paths. apply flat_map_app. Qed.

(** The paths [list_files] collects are those of [walk_data]. *)
Lemma walk_data_paths n :
  forall top, map fst (walk_data top n) = walk_paths (Os.walk_node top n).
Proof.
  induction n as [m d|m es IH] using node_induction; intros top;
    [reflexivity|].
  rewrite walk_data_dir, walk_node_dir, map_app, level_files_paths.
  unfold walk_paths at 1. simpl. fold (walk_paths (sub_walk top es)).
  f_equal. induction es as [|[k c] r IHr]; [reflexivity|].
  inversion IH; subst. simpl. rewrite map_app, walk_paths_app.
  f_equal; auto.
Qed.


Lemma wf_entries_inv k c r :
  wf_entries ((k, c) :: r) = true ->
  valid_name k = true /\ existsb (String.eqb k) (map fst r) = false
  /\ wf_node c = true /\ wf_entries r = true.
Proof.
  simpl. rewrite !andb_true_iff, negb_true_iff. tauto.
Qed.

Lemma join2_is_app a k :
  valid_name k = true -> exists x, join2 a k = x +:+ k.
Proof.
  intros Hk. unfold join2. rewrite (valid_name_not_abs k Hk).
  destruct (_ || _); [now exists a|exists (a +:+ "/")].
  now rewrite append_assoc.
Qed.

Lemma join2_open_end a k : valid_name k = true -> open_end (join2 a k).
Proof.
  intros Hk. destruct (join2_is_app a k Hk) as (x & ->).
  now apply open_end_app.
Qed.

Lemma open_end_prefix P r : open_end r -> open_end (P +:+ r).
Proof.
  intros [Hn He]. split.
  - destruct P; simpl; [assumption|discriminate].
  - now rewrite endswith_app_nonempty.
Qed.

Lemma moved_top top : moved (join2 top "") top "".
Proof.
  intros k Hk. unfold join2. rewrite (valid_name_not_abs k Hk). simpl.
  destruct (String.eqb top "" || endswith top "/").
  - now rewrite append_nil_r.
  - now rewrite !append_assoc.
Qed.

Lemma moved_sub P R r0 k :
  moved P R r0 -> valid_name k = true -> moved P (join2 R k) (join2 r0 k).
Proof.
  intros HR Hk k' Hk'. rewrite (HR k Hk).
  pose proof (join2_open_end r0 k Hk) as Ho.
  rewrite (join2_name _ k' (open_end_prefix P _ Ho) Hk').
  rewrite (join2_name _ k' Ho Hk'). now rewrite append_assoc.
Qed.

Lemma level_files_moved P R r0 es :
  moved P R r0 -> wf_entries es = true ->
  level_files R es = map (shift P) (level_files r0 es).
Proof.
  intros HR. unfold level_files.
  induction es as [|[k c] r IH]; [reflexivity|]. intros Hwf.
  apply wf_entries_inv in Hwf as (Hk & _ & _ & Hr). simpl.
  rewrite map_app, (IH Hr). f_equal.
  destruct c; simpl; [|reflexivity]. unfold shift. simpl. now rewrite (HR k Hk).
Qed.

(** The files below a directory, as found from a path [R], are those found
    from [r0], each moved below [P]. *)
Lemma walk_data_moved n :
  forall P R r0, moved P R r0 -> wf_node n = true ->
  walk_data R n = map (shift P) (walk_data r0 n).
Proof.
  induction n as [m d|m es IH] using node_induction; intros P R r0 HR Hwf;
    [reflexivity|].
  rewrite wf_node_dir in Hwf. rewrite !walk_data_dir, map_app.
  rewrite (level_files_moved P R r0 es HR Hwf). f_equal.
  induction es as [|[k c] r IHr]; [reflexivity|].
  apply wf_entries_inv in Hwf as (Hk & _ & Hc & Hr).
  inversion IH as [|? ? Hc' Hr']; subst. simpl in Hc'. simpl.
  rewrite map_app. f_equal.
  - apply Hc'; [now apply moved_sub|assumption].
  - now apply IHr.
Qed.

Lemma join2_empty k : valid_name k = true -> join2 "" k = k.
Proof. intros Hk. unfold join2. now rewrite (valid_name_not_abs k Hk). Qed.

Lemma join_snoc l k : l <> [] -> Str.join "/" (l ++ [k]) = Str.join "/" l +:+ "/" +:+ k.
Proof.
  unfold Str.join. induction l as [|x r IH]; [congruence|]. intros _.
  destruct r as [|y r']; [reflexivity|].
  change ((x :: y :: r') ++ [k]) with (x :: (y :: r') ++ [k]).
  change (String.concat "/" (x :: (y :: r') ++ [k]))
    with (x +:+ "/" +:+ String.concat "/" ((y :: r') ++ [k])).
  rewrite IH by discriminate. simpl. now rewrite !append_assoc.
Qed.

Lemma lookup_in k es :
  existsb (String.eqb k) (map fst es) = false -> Os.lookup k es = None.
Proof.
  induction es as [|[k' c'] r IH]; [reflexivity|]. simpl.
  rewrite orb_false_iff. intros [H1 H2]. rewrite String.eqb_sym, H1. auto.
Qed.

Lemma lookup_wf k c es :
  wf_entries es = true -> In (k, c) es -> Os.lookup k es = Some c.
Proof.
  induction es as [|[k' c'] r IH]; [contradiction|]. intros Hwf Hin.
  apply wf_entries_inv in Hwf as (Hk & Hnot & Hc & Hr). simpl.
  destruct Hin as [E|Hin].
  - inversion E; subst. now rewrite String.eqb_refl.
  - destruct (String.eqb_spec k' k) as [->|_]; [|auto].
    exfalso.
    assert (existsb (String.eqb k) (map fst r) = true); [|congruence].
    apply existsb_exists. exists k. split; [|apply String.eqb_refl].
    apply in_map_iff. now exists (k, c).
Qed.

Lemma wf_entries_in k c es :
  wf_entries es = true -> In (k, c) es ->
  valid_name k = true /\ wf_node c = true.
Proof.
  induction es as [|[k' c'] r IH]; [contradiction|]. intros Hwf Hin.
  apply wf_entries_inv in Hwf as (Hk & Hnot & Hc & Hr).
  destruct Hin as [E|Hin]; [inversion E; subst; auto|auto].
Qed.

(** Every file [walk_data] finds from the empty path is named by the names
    that lead to it. *)
Lemma walk_data_get n :
  forall segs r d, wf_node n = true ->
  In (r, d) (walk_data (Str.join "/" segs) n) ->
  Forall (fun x => valid_name x = true) segs ->
  exists rel m,
    Forall (fun x => valid_name x = true) rel /\ rel <> []
    /\ r = Str.join "/" (segs ++ rel) /\ Os.get n rel = Some (File m d).
Proof.
  induction n as [m0 d0|m0 es IH] using node_induction;
    intros segs r d Hwf Hin Hsegs; [contradiction|].
  rewrite wf_node_dir in Hwf. rewrite walk_data_dir in Hin.
  assert (Hj : forall k, valid_name k = true ->
                 join2 (Str.join "/" segs) k = Str.join "/" (segs ++ [k])).
  { intros k Hk. destruct segs as [|s0 sr]; [now apply join2_empty|].
    rewrite join_snoc by discriminate. apply join2_name; [|assumption].
    destruct (@exists_last _ (s0 :: sr)) as (l' & a & E); [discriminate|].
    rewrite E in *. apply Forall_app in Hsegs as [_ Ha].
    inversion Ha; subst.
    destruct l' as [|y l'']; [exact (open_end_app "" a H1)|].
    rewrite join_snoc by discriminate.
    replace (Str.join "/" (y :: l'') +:+ "/" +:+ a)
      with ((Str.join "/" (y :: l'') +:+ "/") +:+ a)
      by now rewrite append_assoc.
    now apply open_end_app. }
  apply in_app_or in Hin as [Hin|Hin].
  - unfold level_files in Hin. apply in_flat_map in Hin as ([k c] & Hkc & Hin).
    destruct (wf_entries_in k c es Hwf Hkc) as [Hk _].
    simpl in Hin. destruct c as [m d'|]; [|contradiction].
    destruct Hin as [E|[]]. inversion E; subst.
    exists [k], m. repeat split; [now constructor|discriminate|now apply Hj|].
    simpl. now rewrite (lookup_wf k (File m d) es Hwf Hkc).
  - assert (Hsub : exists k c, In (k, c) es
                     /\ In (r, d) (walk_data (join2 (Str.join "/" segs) k) c)).
    { clear -Hin. induction es as [|[k c] rest IHr]; [contradiction|].
      simpl in Hin. apply in_app_or in Hin as [Hin|Hin].
      - exists k, c. split; [now left|assumption].
      - destruct (IHr Hin) as (k' & c' & H1 & H2). exists k', c'.
        split; [now right|assumption]. }
    destruct Hsub as (k & c & Hkc & Hin').
    destruct (wf_entries_in k c es Hwf Hkc) as [Hk Hc].
    rewrite Forall_forall in IH. specialize (IH (k, c) Hkc). simpl in IH.
    rewrite (Hj k Hk) in Hin'.
    destruct (IH (segs ++ [k]) r d Hc Hin') as (rel & m & Hrel & Hne & Er & Eg).
    { apply Forall_app. split; [assumption|now constructor]. }
    exists (k :: rel), m. repeat split.
    + now constructor.
    + discriminate.
    + now rewrite <- app_assoc in Er.
    + simpl. now rewrite (lookup_wf k c es Hwf Hkc).
Qed.


(** ** Facts on path resolution *)

Lemma startswith_app_nonempty x y :
  x <> "" -> startswith (x +:+ y) "/" = startswith x "/".
Proof. destruct x; [congruence|reflexivity]. Qed.

Lemma join_names_not_abs rel :
  Forall (fun x => valid_name x = true) rel -> rel <> [] ->
  isabs (Str.join "/" rel) = false.
Proof.
  intros H Hne. destruct rel as [|x r]; [congruence|].
  inversion H; subst. unfold isabs.
  destruct r as [|y r']; [now apply valid_name_not_abs|].
  change (Str.join "/" (x :: y :: r'))
    with (x +:+ "/" +:+ Str.join "/" (y :: r')).
  rewrite startswith_app_nonempty by now apply valid_name_neq_empty.
  now apply valid_name_not_abs.
Qed.

Lemma join2_prefix top r :
  isabs r = false -> join2 top r = join2 top "" +:+ r.
Proof.
  unfold isabs, join2. intros ->. simpl.
  destruct (String.eqb top "" || endswith top "/").
  - now rewrite append_nil_r.
  - now rewrite !append_assoc.
Qed.

Lemma isabs_join2 top r : isabs r = false -> isabs (join2 top r) = isabs top.
Proof.
  intros Hr. unfold join2. unfold isabs in *. rewrite Hr.
  destruct (String.eqb_spec top "") as [->|Hne]; simpl orb; [assumption|].
  destruct (endswith top "/"); now apply startswith_app_nonempty.
Qed.

Lemma comps_join2_names cwd top rel :
  Forall (fun x => valid_name x = true) rel -> rel <> [] ->
  norm_comps true (path_comps cwd (join2 top (Str.join "/" rel)))
  = norm_comps true (path_comps cwd top) ++ rel.
Proof.
  intros Hrel Hne. pose proof (join_names_not_abs rel Hrel Hne) as Hr.
  assert (Hs : split slash (Str.join "/" rel) = rel).
  { apply split_join; [assumption|now apply Forall_valid_slash_free]. }
  unfold path_comps, norm_comps. rewrite (isabs_join2 top _ Hr).
  destruct (isabs top).
  - rewrite norm_fold_join2, fold_left_app, Hs by assumption.
    apply norm_fold_push. now apply Forall_valid_is_name.
  - rewrite fold_left_app, norm_fold_join2, fold_left_app, Hs by assumption.
    rewrite norm_fold_push by now apply Forall_valid_is_name.
    now rewrite fold_left_app.
Qed.

Lemma get_app fs l1 l2 :
  Os.get fs (l1 ++ l2)
  = match Os.get fs l1 with Some n => Os.get n l2 | None => None end.
Proof.
  revert fs. induction l1 as [|s r IH]; intros fs; [reflexivity|]. simpl.
  destruct fs as [|m es]; [reflexivity|].
  destruct (Os.lookup s es); [apply IH|reflexivity].
Qed.

Lemma follow_app fs l0 c1 c2 :
  Os.follow fs l0 (c1 ++ c2)
  = match Os.follow fs l0 c1 with
    | inr l => Os.follow fs l c2
    | inl e => inl e
    end.
Proof.
  revert l0. induction c1 as [|c r IH]; intros l0; [reflexivity|]. simpl.
  destruct (Os.get fs l0) as [[|m es]|]; try reflexivity.
  destruct (_ || _); [apply IH|].
  destruct (String.eqb c ".."); [apply IH|].
  destruct (Os.lookup c es); [apply IH|reflexivity].
Qed.

Lemma follow_skip fs l c rest :
  Os.follow fs l ("" :: c :: rest) = Os.follow fs l (c :: rest).
Proof.
  simpl. destruct (Os.get fs l) as [[|m es]|]; reflexivity.
Qed.

Lemma follow_join2 fs l0 a b :
  isabs b = false ->
  Os.follow fs l0 (split slash (join2 a b))
  = Os.follow fs l0 (split slash a ++ split slash b).
Proof.
  intros Hb. unfold join2. unfold isabs in Hb. rewrite Hb.
  destruct (split_cons slash b) as (h & t & Eb).
  destruct (String.eqb_spec a "") as [->|Ha]; simpl orb; cbv iota.
  - change (split slash "" ++ split slash b) with ("" :: split slash b).
    change ("" +:+ b) with b. rewrite Eb. symmetry. apply follow_skip.
  - destruct (endswith a "/") eqn:E.
    + apply endswith_inv in E as (pre & ->).
      change (pre +:+ "/") with (pre +:+ String slash "").
      rewrite append_assoc. simpl String.append at 1.
      rewrite !split_app_sep. simpl split at 2.
      rewrite <- !app_assoc, !follow_app.
      destruct (Os.follow fs l0 (split slash pre)); [reflexivity|].
      change ([""] ++ split slash b) with ("" :: split slash b).
      rewrite Eb. symmetry. apply follow_skip.
    + change (a +:+ "/" +:+ b) with (a +:+ String slash b).
      now rewrite split_app_sep.
Qed.

Lemma is_name_inv k :
  is_name k = true ->
  String.eqb k "" || String.eqb k "." = false /\ String.eqb k ".." = false.
Proof.
  unfold is_name. rewrite !andb_true_iff, !negb_true_iff.
  intros [[-> ->] ->]. auto.
Qed.

Lemma follow_names fs rel :
  forall loc n x,
  Os.get fs loc = Some n -> Os.get n rel = Some x ->
  Forall (fun k => valid_name k = true) rel ->
  Os.follow fs loc rel = inr (loc ++ rel) /\ Os.get fs (loc ++ rel) = Some x.
Proof.
  induction rel as [|k rest IH]; intros loc n x Hloc Hget Hv.
  - simpl in *. rewrite app_nil_r. split; congruence.
  - inversion Hv as [|? ? Hk Hrest]; subst. simpl in Hget.
    destruct n as [|m es]; [discriminate|].
    destruct (Os.lookup k es) as [c|] eqn:El; [|discriminate].
    apply valid_name_split in Hk as [_ Hk].
    destruct (is_name_inv k Hk) as [E1 E2].
    simpl. rewrite Hloc, E1, E2, El.
    assert (Hc : Os.get fs (loc ++ [k]) = Some c).
    { rewrite get_app, Hloc. simpl. now rewrite El. }
    destruct (IH (loc ++ [k]) c x Hc Hget Hrest) as [F G].
    rewrite <- app_assoc in F, G. auto.
Qed.

Lemma stat_inv w p n :
  Os.stat w p = Ok n ->
  exists loc, Os.resolve w p = inr loc /\ Os.get (root w) loc = Some n.
Proof.
  unfold Os.stat. destruct (Os.resolve w p) as [e|loc]; [discriminate|].
  destruct (Os.get (root w) loc) eqn:E; [|discriminate].
  intros H. inversion H; subst. eauto.
Qed.

Lemma stat_nonempty w p n : Os.stat w p = Ok n -> p <> "".
Proof. intros H ->. discriminate. Qed.

Lemma join2_nonempty top r : top <> "" -> join2 top r <> "".
Proof.
  intros H. unfold join2. destruct (startswith r "/") eqn:E.
  - destruct r; [discriminate|discriminate].
  - destruct (_ || _); destruct top; simpl; congruence.
Qed.

(** A file below a directory is reached through the path of the directory
    followed by the names that lead to the file. *)
Lemma stat_below w top n rel x :
  Os.stat w top = Ok n -> Os.get n rel = Some x ->
  Forall (fun k => valid_name k = true) rel -> rel <> [] ->
  Os.stat w (join2 top (Str.join "/" rel)) = Ok x.
Proof.
  intros Hst Hget Hrel Hne.
  pose proof (stat_nonempty _ _ _ Hst) as Htop.
  apply stat_inv in Hst as (loc & Hres & Hloc).
  pose proof (join_names_not_abs rel Hrel Hne) as Hr.
  assert (Hs : split slash (Str.join "/" rel) = rel).
  { apply split_join; [assumption|now apply Forall_valid_slash_free]. }
  destruct (follow_names (root w) rel loc n x Hloc Hget Hrel) as [F G].
  unfold Os.stat, Os.resolve in *.
  pose proof (join2_nonempty top (Str.join "/" rel) Htop) as Hj.
  destruct (join2 top (Str.join "/" rel)) as [|c0 s0] eqn:Ej; [congruence|].
  rewrite <- Ej. rewrite (isabs_join2 top _ Hr).
  destruct top as [|t0 ts]; [congruence|].
  destruct (isabs (String t0 ts)).
  - rewrite follow_join2, follow_app, Hres, Hs, F, G by assumption.
    reflexivity.
  - destruct (Os.follow (root w) [] (split slash (cwd w))); [discriminate|].
    rewrite follow_join2, follow_app, Hres, Hs, F, G by assumption.
    reflexivity.
Qed.


(** ** Facts on sorting *)

Lemma compare_prefix P a b :
  String.compare (P +:+ a) (P +:+ b) = String.compare a b.
Proof.
  induction P as [|c r IH]; [reflexivity|]. simpl.
  unfold Ascii.compare. now rewrite N.compare_refl.
Qed.

Lemma leb_prefix P a b : String.leb (P +:+ a) (P +:+ b) = String.leb a b.
Proof. unfold String.leb. now rewrite compare_prefix. Qed.

Lemma insert_sorted_prefix P x l :
  insert_sorted (P +:+ x) (map (String.append P) l)
  = map (String.append P) (insert_sorted x l).
Proof.
  induction l as [|y r IH]; [reflexivity|]. simpl.
  rewrite leb_prefix. destruct (String.leb x y); simpl; congruence.
Qed.

(** Sorting paths that share a prefix sorts what follows the prefix. *)
Lemma sort_prefix P l :
  sort (map (String.append P) l) = map (String.append P) (sort l).
Proof.
  induction l as [|x r IH]; [reflexivity|]. simpl.
  now rewrite IH, insert_sorted_prefix.
Qed.

Lemma insert_sorted_perm x l : Permutation (x :: l) (insert_sorted x l).
Proof.
  induction l as [|y r IH]; [reflexivity|]. simpl.
  destruct (String.leb x y); [reflexivity|].
  rewrite perm_swap. now constructor.
Qed.

Lemma sort_perm l : Permutation l (sort l).
Proof.
  induction l as [|x r IH]; [constructor|]. simpl.
  rewrite <- insert_sorted_perm. now constructor.
Qed.

Lemma sort_in x l : In x (sort l) -> In x l.
Proof. apply Permutation_in. symmetry. apply sort_perm. Qed.

(** ** The bytes fed to the hash *)

Lemma read_chunks_all n fuel : forall data h,
  (0 < n)%nat -> (List.length data <= fuel)%nat ->
  fold_left update (read_chunks fuel n data) h = h ++ data.
Proof.
  induction fuel as [|f IH]; intros data h Hn Hlen.
  - destruct data; [simpl; now rewrite app_nil_r|simpl in Hlen; lia].
  - destruct data as [|b r]; [simpl; now rewrite app_nil_r|].
    cbn [read_chunks fold_left]. rewrite IH; [|assumption|].
    + unfold update. now rewrite <- app_assoc, firstn_skipn.
    + rewrite length_skipn. cbn [List.length] in *. lia.
Qed.

(** [update_hash] feeds the relative path and then the content, with
    nothing between them. *)
Lemma update_hash_ok w h file_root file_path rel d :
  relpath (cwd w) file_path file_root = Ok rel ->
  Os.read_file w file_path = Ok d ->
  update_hash w h file_root file_path = Ok (h ++ encode rel ++ d).
Proof.
  intros Hr Hd. unfold update_hash. rewrite Hr, Hd. simpl.
  rewrite read_chunks_all by (try lia). unfold update.
  now rewrite <- app_assoc.
Qed.

Lemma update_hash_files_ok w top P (f : string -> bytes) l : forall h,
  (forall r h', In r l ->
     update_hash w h' top (P +:+ r) = Ok (h' ++ f r)) ->
  update_hash_files w h top (map (String.append P) l)
  = Ok (h ++ flat_map f l).
Proof.
  induction l as [|r rest IH]; intros h H; simpl.
  - now rewrite app_nil_r.
  - rewrite (H r h (or_introl eq_refl)). simpl.
    rewrite IH by (intros; apply H; now right).
    now rewrite <- app_assoc.
Qed.

Lemma file_data_in l r :
  In r (map fst l) -> In (r, file_data l r) l.
Proof.
  intros H. unfold file_data.
  destruct (find (fun e => String.eqb (fst e) r) l) as [[k d]|] eqn:E.
  - apply find_some in E as [Hin Hk]. simpl in Hk.
    apply String.eqb_eq in Hk. now subst.
  - exfalso. apply in_map_iff in H as ([k d] & Hk & Hin). simpl in Hk. subst.
    pose proof (find_none _ _ E _ Hin) as Hn. simpl in Hn.
    now rewrite String.eqb_refl in Hn.
Qed.

Lemma isdir_stat w p m es : Os.stat w p = Ok (Dir m es) -> Os.isdir w p = true.
Proof. unfold Os.isdir. now intros ->. Qed.

Lemma read_file_stat w p m d :
  Os.stat w p = Ok (File m d) -> Os.read_file w p = Ok d.
Proof. unfold Os.read_file. now intros ->. Qed.

(** Hashing one file below a hashed directory. *)
Lemma update_hash_below w h top n r d :
  isabs (cwd w) = true -> Os.stat w top = Ok n -> wf_node n = true ->
  In (r, d) (walk_data "" n) ->
  update_hash w h top (join2 top "" +:+ r) = Ok (h ++ encode r ++ d).
Proof.
  intros Hcwd Hst Hwf Hin.
  destruct (walk_data_get n [] r d Hwf Hin (Forall_nil _))
    as (rel & m & Hrel & Hne & -> & Hget).
  simpl app. pose proof (join_names_not_abs rel Hrel Hne) as Hr.
  rewrite <- join2_prefix by assumption.
  apply update_hash_ok.
  - apply relpath_under; try assumption.
    + apply join2_nonempty. eapply stat_nonempty; eassumption.
    + now apply comps_join2_names.
  - eapply read_file_stat. eapply stat_below; eassumption.
Qed.

(** Hashing a directory feeds its [dir_stream]. *)
Lemma hash_dir w h top m es :
  isabs (cwd w) = true -> Os.stat w top = Ok (Dir m es) ->
  wf_node (Dir m es) = true ->
  hash_source_path w h top = Ok (h ++ dir_stream (walk_data "" (Dir m es))).
Proof.
  intros Hcwd Hst Hwf. unfold hash_source_path.
  rewrite (isdir_stat _ _ _ _ Hst). unfold list_files, Os.walk. rewrite Hst.
  fold (walk_paths (Os.walk_node top (Dir m es))).
  rewrite <- walk_data_paths.
  rewrite (walk_data_moved _ _ _ _ (moved_top top) Hwf).
  rewrite map_map. unfold shift at 1. simpl fst.
  rewrite <- (map_map fst (String.append (join2 top ""))), sort_prefix.
  apply update_hash_files_ok. intros r h' Hin.
  apply sort_in in Hin. apply file_data_in in Hin.
  eapply update_hash_below; eassumption.
Qed.


(** ** Facts on [dirname] and [basename] *)

Lemma rstrip_slash_run s : exists j, s = rstrip_slash s +:+ slash_run j.
Proof.
  induction s as [|c r [j IH]]; [now exists 0%nat|]. simpl.
  destruct (rstrip_slash r) as [|c' r'] eqn:E.
  - simpl in IH. destruct (Ascii.eqb_spec c slash) as [->|_].
    + exists (S j). simpl. congruence.
    + exists j. simpl. congruence.
  - exists j. simpl. simpl in IH. congruence.
Qed.

Lemma norm_fold_slash_run abs j st :
  fold_left (norm_step abs) (split slash (slash_run j)) st = st.
Proof.
  induction j as [|j IH]; [reflexivity|]. simpl. exact IH.
Qed.

Lemma norm_fold_app_run abs x j st :
  fold_left (norm_step abs) (split slash (x +:+ slash_run j)) st
  = fold_left (norm_step abs) (split slash x) st.
Proof.
  destruct j as [|j]; [now rewrite append_nil_r|].
  simpl slash_run. rewrite split_app_sep, fold_left_app.
  apply norm_fold_slash_run.
Qed.

Lemma norm_fold_rstrip abs s st :
  fold_left (norm_step abs) (split slash (rstrip_slash s)) st
  = fold_left (norm_step abs) (split slash s) st.
Proof.
  destruct (rstrip_slash_run s) as (j & E). rewrite E at 2.
  symmetry. apply norm_fold_app_run.
Qed.

Lemma rstrip_empty s : rstrip_slash s = "" -> all_slashes s = true.
Proof.
  induction s as [|c r IH]; [reflexivity|]. simpl.
  destruct (rstrip_slash r) eqn:E; [|discriminate].
  destruct (Ascii.eqb c slash); [auto|discriminate].
Qed.

Lemma isabs_rstrip s :
  all_slashes s = false -> isabs (rstrip_slash s) = isabs s.
Proof.
  intros H. destruct s as [|c r]; [reflexivity|].
  destruct (rstrip_slash (String c r)) as [|c' r'] eqn:E.
  - apply rstrip_empty in E. congruence.
  - simpl in E. destruct (rstrip_slash r);
      [destruct (Ascii.eqb c slash); [discriminate|]|];
      inversion E; subst; reflexivity.
Qed.

Lemma split_init_last p :
  split slash p = removelast (split slash p) ++ [basename p].
Proof. apply app_removelast_last, split_not_nil. Qed.

Lemma dirname_norm abs p st :
  fold_left (norm_step abs) (split slash (dirname p)) st
  = fold_left (norm_step abs) (removelast (split slash p)) st.
Proof.
  unfold dirname.
  destruct (removelast (split slash p)) as [|i0 ir] eqn:E; [reflexivity|].
  assert (Hs : split slash (Str.join "/" (i0 :: ir) +:+ "/")
               = (i0 :: ir) ++ [""]).
  { change (Str.join "/" (i0 :: ir) +:+ "/")
      with (Str.join "/" (i0 :: ir) +:+ String slash "").
    rewrite split_app_sep, split_join; [reflexivity|discriminate|].
    pose proof (split_elems_slash_free p) as H.
    rewrite split_init_last, E in H. now apply Forall_app in H. }
  destruct (all_slashes _).
  - rewrite Hs, fold_left_app. reflexivity.
  - rewrite norm_fold_rstrip, Hs, fold_left_app. reflexivity.
Qed.

Lemma path_head p i0 ir :
  removelast (split slash p) = i0 :: ir ->
  p = (Str.join "/" (i0 :: ir) +:+ "/") +:+ basename p.
Proof.
  intros E. rewrite <- (join_split p) at 1.
  rewrite split_init_last, E, join_snoc by discriminate.
  now rewrite append_assoc.
Qed.

Lemma isabs_dirname p :
  removelast (split slash p) <> [] -> isabs (dirname p) = isabs p.
Proof.
  intros Hne. unfold dirname.
  destruct (removelast (split slash p)) as [|i0 ir] eqn:E; [congruence|].
  pose proof (path_head p i0 ir E) as Hp.
  set (head := Str.join "/" (i0 :: ir) +:+ "/") in *.
  assert (Hh : head <> "").
  { unfold head. destruct (Str.join "/" (i0 :: ir)); discriminate. }
  replace (isabs p) with (isabs head).
  2:{ rewrite Hp. unfold isabs. now rewrite startswith_app_nonempty. }
  destruct (all_slashes head) eqn:Ea; [reflexivity|now apply isabs_rstrip].
Qed.

Lemma split_single p k : split slash p = [k] -> p = k.
Proof. intros E. rewrite <- (join_split p), E. reflexivity. Qed.

(** The components of a path are those of its [dirname] and then its
    [basename], when that is a name. *)
Lemma comps_dirname cwd p :
  valid_name (basename p) = true ->
  norm_comps true (path_comps cwd p)
  = norm_comps true (path_comps cwd (dirname p)) ++ [basename p].
Proof.
  intros Hk. pose proof Hk as Hn. apply valid_name_split in Hn as [_ Hn].
  unfold path_comps, norm_comps.
  destruct (removelast (split slash p)) as [|i0 ir] eqn:E.
  - pose proof (split_init_last p) as Hs. rewrite E in Hs. simpl in Hs.
    pose proof (split_single _ _ Hs) as Hp.
    assert (Hd : dirname p = "") by (unfold dirname; now rewrite E).
    rewrite Hd. rewrite Hp at 1. unfold isabs at 1.
    rewrite (valid_name_not_abs _ Hk). simpl isabs. cbv iota.
    rewrite Hs, !fold_left_app. simpl. rewrite fold_left_app. simpl.
    now rewrite norm_step_name.
  - rewrite isabs_dirname by (rewrite E; discriminate).
    destruct (isabs p).
    + rewrite dirname_norm. rewrite split_init_last at 1.
      rewrite fold_left_app. simpl. now rewrite norm_step_name.
    + rewrite !fold_left_app, dirname_norm.
      rewrite split_init_last at 1. rewrite fold_left_app. simpl.
      now rewrite norm_step_name.
Qed.

Lemma get_parent_dir fs l m es :
  Os.get fs l = Some (Dir m es) ->
  exists m' es', Os.get fs (removelast l) = Some (Dir m' es').
Proof.
  destruct l as [|x r] using rev_ind; [eauto|]. clear IHr.
  rewrite removelast_last, get_app.
  destruct (Os.get fs r) as [[|m' es']|]; simpl; try discriminate. eauto.
Qed.

(** Following one component ends on a directory unless the component is a
    name. *)
Lemma follow_last_file fs l k loc m d :
  Os.follow fs l [k] = inr loc -> Os.get fs loc = Some (File m d) ->
  is_name k = true.
Proof.
  simpl. destruct (Os.get fs l) as [[|m' es']|] eqn:El; try discriminate.
  unfold is_name.
  destruct (String.eqb k "" || String.eqb k ".") eqn:E1.
  { intros H. inversion H; subst. congruence. }
  destruct (String.eqb k "..") eqn:E2.
  { intros H. inversion H; subst.
    destruct (get_parent_dir _ _ _ _ El) as (m1 & es1 & E). congruence. }
  apply orb_false_iff in E1 as [-> ->]. reflexivity.
Qed.

(** The last component of a path to a regular file is its name. *)
Lemma basename_file w p m d :
  Os.stat w p = Ok (File m d) -> valid_name (basename p) = true.
Proof.
  intros H. apply stat_inv in H as (loc & Hres & Hget).
  apply valid_name_split. split.
  - pose proof (split_elems_slash_free p) as Hs.
    rewrite split_init_last in Hs. apply Forall_app in Hs as [_ Hs].
    now inversion Hs.
  - unfold Os.resolve in Hres. destruct p as [|c0 p0]; [discriminate|].
    set (p := String c0 p0) in *.
    assert (Hf : exists l0, Os.follow (root w) l0 (split slash p) = inr loc).
    { destruct (isabs p); [eauto|].
      destruct (Os.follow (root w) [] (split slash (cwd w)));
        [discriminate|eauto]. }
    destruct Hf as (l0 & Hf). rewrite split_init_last, follow_app in Hf.
    destruct (Os.follow (root w) l0 (removelast (split slash p))) as [|l1];
      [discriminate|].
    eapply follow_last_file; eassumption.
Qed.

(** Hashing a single file feeds its name and its content. *)
Lemma hash_file w h p m d :
  isabs (cwd w) = true -> Os.stat w p = Ok (File m d) ->
  hash_source_path w h p = Ok (h ++ encode (basename p) ++ d).
Proof.
  intros Hcwd Hst. unfold hash_source_path, Os.isdir. rewrite Hst.
  pose proof (basename_file _ _ _ _ Hst) as Hk.
  apply update_hash_ok; [|now apply read_file_stat with m].
  change (basename p) with (Str.join "/" [basename p]).
  apply relpath_under; try assumption.
  - eapply stat_nonempty; eassumption.
  - discriminate.
  - now constructor.
  - now apply comps_dirname.
Qed.


(** ** The sorted list does not depend on the order of the input *)

Lemma ascii_compare_refl c : Ascii.compare c c = Eq.
Proof. unfold Ascii.compare. apply N.compare_refl. Qed.

Lemma string_leb_trans a : forall b c,
  String.leb a b = true -> String.leb b c = true -> String.leb a c = true.
Proof.
  unfold String.leb.
  induction a as [|x a IH]; intros [|y b] [|z c]; simpl; try easy.
  specialize (IH b c). unfold Ascii.compare.
  destruct (N.compare_spec (N_of_ascii x) (N_of_ascii y)) as [E1|E1|E1];
    destruct (N.compare_spec (N_of_ascii y) (N_of_ascii z)) as [E2|E2|E2];
    destruct (N.compare_spec (N_of_ascii x) (N_of_ascii z)) as [E3|E3|E3];
    try easy; try lia; auto.
Qed.

Lemma string_leb_false a b : String.leb a b = false -> String.leb b a = true.
Proof.
  intros H. destruct (String.leb_total a b) as [E|E]; congruence.
Qed.

Lemma insert_sorted_comm x y l :
  insert_sorted x (insert_sorted y l) = insert_sorted y (insert_sorted x l).
Proof.
  induction l as [|b r IH]; simpl.
  - destruct (String.leb x y) eqn:Exy, (String.leb y x) eqn:Eyx; try reflexivity.
    + now rewrite (String.leb_antisym _ _ Exy Eyx).
    + apply string_leb_false in Exy. congruence.
  - destruct (String.leb y b) eqn:Eyb, (String.leb x b) eqn:Exb; simpl;
      rewrite ?Eyb, ?Exb.
    + destruct (String.leb x y) eqn:Exy, (String.leb y x) eqn:Eyx;
        try reflexivity.
      * now rewrite (String.leb_antisym _ _ Exy Eyx).
      * apply string_leb_false in Exy. congruence.
    + destruct (String.leb x y) eqn:Exy; [|reflexivity].
      rewrite (string_leb_trans _ _ _ Exy Eyb) in Exb. discriminate.
    + destruct (String.leb y x) eqn:Eyx; [|reflexivity].
      rewrite (string_leb_trans _ _ _ Eyx Exb) in Eyb. discriminate.
    + now rewrite IH.
Qed.

Lemma sort_permutation l1 l2 : Permutation l1 l2 -> sort l1 = sort l2.
Proof.
  induction 1 as [|x l l' _ IH|x y l|l l' l'' _ IH1 _ IH2]; simpl.
  - reflexivity.
  - now rewrite IH.
  - apply insert_sorted_comm.
  - congruence.
Qed.

Lemma file_data_permutation l1 l2 r :
  Permutation l1 l2 -> functional l1 -> In r (map fst l1) ->
  file_data l1 r = file_data l2 r.
Proof.
  intros Hp Hf Hin.
  pose proof (file_data_in l1 r Hin) as H1.
  assert (Hin2 : In r (map fst l2)).
  { eapply Permutation_in; [|exact Hin]. now apply Permutation_map. }
  pose proof (file_data_in l2 r Hin2) as H2.
  apply (Hf r); [assumption|].
  eapply Permutation_in; [symmetry; exact Hp|assumption].
Qed.

Lemma dir_stream_permutation l1 l2 :
  Permutation l1 l2 -> functional l1 -> dir_stream l1 = dir_stream l2.
Proof.
  intros Hp Hf. unfold dir_stream.
  rewrite <- (sort_permutation (map fst l1) (map fst l2))
    by now apply Permutation_map.
  assert (H : forall r, In r (sort (map fst l1)) ->
                encode r ++ file_data l1 r = encode r ++ file_data l2 r).
  { intros r Hr. f_equal. apply file_data_permutation; try assumption.
    now apply sort_in. }
  induction (sort (map fst l1)) as [|r rest IH]; [reflexivity|]. simpl.
  rewrite H by now left. f_equal. apply IH. intros; apply H. now right.
Qed.

Lemma walk_data_functional w top n :
  isabs (cwd w) = true -> Os.stat w top = Ok n -> wf_node n = true ->
  functional (walk_data "" n).
Proof.
  intros Hcwd Hst Hwf r d d' H1 H2.
  pose proof (update_hash_below w [] top n r d Hcwd Hst Hwf H1) as E1.
  pose proof (update_hash_below w [] top n r d' Hcwd Hst Hwf H2) as E2.
  rewrite E1 in E2. inversion E2 as [E]. simpl in E.
  now apply app_inv_head in E.
Qed.

(** ** Path independence of the digest *)

Lemma hash_source_path_same w1 w2 p1 p2 h :
  isabs (cwd w1) = true -> isabs (cwd w2) = true ->
  same_content w1 w2 p1 p2 ->
  exists s, hash_source_path w1 h p1 = Ok (h ++ s)
            /\ hash_source_path w2 h p2 = Ok (h ++ s).
Proof.
  intros H1 H2 [m1 es1 m2 es2 S1 S2 W1 W2 Hp|m1 m2 d S1 S2 Hb].
  - exists (dir_stream (walk_data "" (Dir m1 es1))). split.
    + now apply hash_dir.
    + rewrite (dir_stream_permutation _ _ Hp).
      * now apply hash_dir.
      * apply (walk_data_functional w1 p1); assumption.
  - exists (encode (basename p1) ++ d). split.
    + eapply hash_file; eassumption.
    + rewrite Hb. eapply hash_file; eassumption.
Qed.

Lemma hash_source_paths_same w1 w2 ps1 ps2 :
  isabs (cwd w1) = true -> isabs (cwd w2) = true ->
  Forall2 (same_content w1 w2) ps1 ps2 ->
  forall h, exists s, hash_source_paths w1 h ps1 = Ok (h ++ s)
                      /\ hash_source_paths w2 h ps2 = Ok (h ++ s).
Proof.
  intros H1 H2. induction 1 as [|p1 p2 r1 r2 Hp _ IH]; intros h.
  - exists []. simpl. now rewrite app_nil_r.
  - destruct (hash_source_path_same w1 w2 p1 p2 h H1 H2 Hp) as (s & E1 & E2).
    destruct (IH (h ++ s)) as (s' & E1' & E2').
    exists (s ++ s'). simpl. rewrite E1, E2. simpl.
    now rewrite E1', E2', app_assoc.
Qed.

(** ** build_relative_path *)

Lemma nth_error_length {A} (l r : list A) :
  nth_error (l ++ r) (List.length l) = hd_error r.
Proof. induction l; simpl; [now destruct r|assumption]. Qed.

Lemma same_elems_left_eq aelem : forall selem brest,
  same_elems (selem ++ brest) selem aelem = same_elems_left selem aelem brest.
Proof.
  induction aelem as [|e ar IH]; intros selem brest; [reflexivity|].
  simpl. rewrite nth_error_length. destruct brest as [|b br]; [reflexivity|].
  simpl. destruct (String.eqb_spec e b) as [->|_]; [|reflexivity].
  rewrite <- IH. now rewrite <- app_assoc.
Qed.

Lemma same_elems_left_prefix belem : forall selem e rest,
  same_elems_left selem (belem ++ e :: rest) belem = Raise IndexError.
Proof.
  induction belem as [|b br IH]; intros selem e rest; [reflexivity|].
  simpl. rewrite String.eqb_refl. apply IH.
Qed.

(** The loop raises when the elements of [b] are the first elements of [a]
    and [a] has more. *)
Lemma same_elems_prefix belem e rest :
  same_elems belem [] (belem ++ e :: rest) = Raise IndexError.
Proof.
  rewrite (same_elems_left_eq _ [] belem). apply same_elems_left_prefix.
Qed.

Lemma same_elems_left_common aelem : forall selem brest,
  (exists e rest, aelem = brest ++ e :: rest)
  \/ same_elems_left selem aelem brest
     = Ok (selem ++ commonprefix aelem brest).
Proof.
  induction aelem as [|e ar IH]; intros selem brest.
  - right. simpl. now rewrite app_nil_r.
  - destruct brest as [|b br]; [left; now exists e, ar|].
    simpl. destruct (String.eqb_spec e b) as [->|_].
    + destruct (IH (selem ++ [b]) br) as [(e' & rest & ->)|E].
      * left. now exists e', rest.
      * right. rewrite E. now rewrite <- app_assoc.
    + right. now rewrite app_nil_r.
Qed.

(** Otherwise it stops with the longest common prefix. *)
Lemma same_elems_common aelem belem :
  (exists e rest, aelem = belem ++ e :: rest)
  \/ same_elems belem [] aelem = Ok (commonprefix aelem belem).
Proof.
  rewrite (same_elems_left_eq _ [] belem). apply same_elems_left_common.
Qed.





Lemma isfile_stat w p :
  Os.isfile w p = true -> exists m d, Os.stat w p = Ok (File m d).
Proof.
  unfold Os.isfile. destruct (Os.stat w p) as [[m d|]|]; try discriminate.
  eauto.
Qed.

Lemma get_abs_dirname_file w p :
  Os.isfile w (abspath (cwd w) p) = true ->
  get_abs_dirname w p = basename (abspath (cwd w) p)
  /\ valid_name (get_abs_dirname w p) = true.
Proof.
  intros H. unfold get_abs_dirname. rewrite H. split; [reflexivity|].
  apply isfile_stat in H as (m & d & H). eapply basename_file; eassumption.
Qed.


(** ** Round trip of build_relative_path *)




Lemma replace_absent s t new :
  s <> "" -> occurs t s = false -> replace t s new = t.
Proof.
  intros Hs. destruct s as [|c r]; [congruence|].
  unfold replace, replace_count.
  induction t as [|d t IH]; [reflexivity|]. cbn [occurs replace_go].
  rewrite orb_false_iff. intros [H1 H2]. rewrite H1, (IH H2). reflexivity.
Qed.


Lemma climb_fold {A} (l : list A) : forall acc,
  fold_left (fun rel_path _ => rel_path +:+ "../") l acc
  = acc +:+ climb (List.length l).
Proof.
  induction l as [|x r IH]; intros acc; simpl.
  - now rewrite append_nil_r.
  - rewrite IH. now rewrite append_assoc.
Qed.





Section RoundTrip.
Variable w : world.
Variables cs as_ bs : list string.
Variables a b : string.
Hypothesis Hcwd : cwd w = "/" +:+ Str.join "/" cs.
Hypothesis Hcs : Forall (fun x => valid_name x = true) cs.
Hypothesis Hcs_ne : cs <> [].
Hypothesis Ha : a = Str.join "/" as_.
Hypothesis Has : Forall (fun x => valid_name x = true) as_.
Hypothesis Hb : b = Str.join "/" bs.
Hypothesis Hbs : Forall (fun x => valid_name x = true) bs.









Hypothesis Hbs_ne : bs <> [].
Hypothesis Hhead : hd "" as_ <> hd "" bs.
Hypothesis Hfa : Os.isfile w (abspath (cwd w) a) = false.
Hypothesis Hfb : Os.isfile w (abspath (cwd w) b) = false.
Hypothesis Hocc : occurs ("/" +:+ b) (cwd w) = false.



End RoundTrip.

(** ** Facts used by the claims *)

Lemma dedup_in l x : In x (dedup l) <-> In x l.
Proof.
  induction l as [|y r IH]; [tauto|]. simpl. rewrite filter_In, IH.
  destruct (String.eqb_spec x y) as [->|Hn]; simpl; [tauto|].
  split; [tauto|]. intros [E|H]; [congruence|auto].
Qed.

Lemma dedup_nodup l : NoDup (dedup l).
Proof.
  induction l as [|y r IH]; simpl; constructor.
  - rewrite filter_In, String.eqb_refl. simpl. intros [_ H]. discriminate.
  - now apply NoDup_filter.
Qed.


Lemma normpath_nonempty p : normpath p <> "".
Proof.
  unfold normpath. destruct p; [discriminate|].
  destruct (_ +:+ _); discriminate.
Qed.

(** With [posixpath] the resolved [source_path] is never empty. *)
Lemma abspath_nonempty cwd p : abspath cwd p <> "".
Proof. apply normpath_nonempty. Qed.

(** A name that is not in the working directory is passed over. *)
Lemma sweep_names_not_found now w names :
  (forall name, In name names -> Os.getmtime w name = Raise (OSError ENOENT)) ->
  sweep_names now w names = Ok w.
Proof.
  induction names as [|name rest IH]; intros H; [reflexivity|].
  simpl. unfold sweep_name, examine. simpl os_getmtime.
  rewrite (H name (or_introl eq_refl)). simpl.
  destruct (endswith name ".zip"); simpl; apply IH; intros; apply H; now right.
Qed.

(** [build_relative_path] raises nothing but [IndexError], and only when the
    reference root is above the path. *)
Lemma build_relative_path_raise_inv w a b e :
  build_relative_path w a b = Raise e ->
  e = IndexError
  /\ exists x rest,
       split slash (get_abs_dirname w a)
       = split slash (get_abs_dirname w b) ++ x :: rest.
Proof.
  unfold build_relative_path.
  destruct (String.eqb _ _); [discriminate|].
  destruct (same_elems_common (split slash (get_abs_dirname w a))
                              (split slash (get_abs_dirname w b)))
    as [(x & rest & E)|E].
  - rewrite E, same_elems_prefix. simpl. intros H. inversion H. eauto.
  - rewrite E. simpl. destruct (_ <? _)%nat; discriminate.
Qed.

(** For a regular file the result is the path as given or the name of the
    file. *)
Lemma build_relative_path_of_file w a b :
  Os.isfile w (abspath (cwd w) a) = true ->
  build_relative_path w a b
  = if String.eqb (get_abs_dirname w a) (get_abs_dirname w b)
    then Ok a else Ok (basename (abspath (cwd w) a)).
Proof.
  intros H. destruct (get_abs_dirname_file w a H) as [E V].
  unfold build_relative_path. destruct (String.eqb _ _); [reflexivity|].
  rewrite <- E. apply valid_name_split in V as [V _].
  rewrite (split_slash_free _ V).
  destruct (split_cons slash (get_abs_dirname w b)) as (h & t & ->).
  simpl. destruct (String.eqb _ h); reflexivity.
Qed.

(** ** The claims *)

(** C1. The digest depends on the order in which the source paths are
    hashed: [generate_content_hash] folds them in the order of the list it
    is given, and that list is the iteration order of a set, which is not
    sorted. The same three paths hashed in two orders give two digests, and
    with a set that iterates in insertion order ([dedup], which lists every
    element once: [dedup_in], [dedup_nodup]) the same build paths given in
    two orders lead to two file names. *)
Theorem digest_depends_on_order :
  (forall p, In p (build_paths query_ab) <-> In p (build_paths query_ba))
  /\ (exists d1 d2,
         content_digest w_mod ["../fn"; "../shared"; "../fn/lib"] "go1.x" "zip"
         = Ok d1
         /\ content_digest w_mod ["../fn"; "../fn/lib"; "../shared"] "go1.x"
                           "zip" = Ok d2
         /\ d1 <> d2)
  /\ (exists f1 f2,
         filename_of (main abspath dedup now0 w_repo query_ab) = Some f1
         /\ filename_of (main abspath dedup now0 w_repo query_ba) = Some f2
         /\ f1 <> f2).
Proof.
  split; [|split].
  - intros p. simpl. tauto.
  - do 2 eexists. split; [vm_compute; reflexivity|].
    split; [vm_compute; reflexivity|]. discriminate.
  - do 2 eexists. split; [vm_compute; reflexivity|].
    split; [vm_compute; reflexivity|]. discriminate.
Qed.

(** C2. Two lists of source paths whose elements have, one by one, the same
    content give the same digest, wherever they lie: the paths, the working
    directories, the place of the trees in the file system, the order in
    which a directory lists its entries and the modification times may all
    differ. *)
Theorem digest_path_independent w1 w2 ps1 ps2 runtime build_command :
  isabs (cwd w1) = true -> isabs (cwd w2) = true ->
  Forall2 (same_content w1 w2) ps1 ps2 ->
  exists digest,
    content_digest w1 ps1 runtime build_command = Ok digest
    /\ content_digest w2 ps2 runtime build_command = Ok digest.
Proof.
  intros H1 H2 H.
  destruct (hash_source_paths_same w1 w2 ps1 ps2 H1 H2 H []) as (s & E1 & E2).
  unfold content_digest, generate_content_hash. rewrite E1, E2. simpl. eauto.
Qed.

Lemma digest_path_independent_witness :
  exists digest,
    content_digest w_repo ["fn"; "shared/a.txt"] "go1.x" "zip" = Ok digest
    /\ content_digest w_backup ["/backup/copy/fn"; "../a.txt"] "go1.x" "zip"
       = Ok digest.
Proof.
  apply digest_path_independent; [reflexivity|reflexivity|].
  constructor; [|constructor; [|constructor]].
  - eapply same_dir; [reflexivity|reflexivity|reflexivity|reflexivity|].
    vm_compute. apply perm_swap.
  - eapply same_file; reflexivity.
Defined.

(** C3. [build_relative_path] raises [IndexError] whenever the elements of
    the resolved reference root are the first elements of the resolved path
    and the path has more of them: the root is an ancestor of the path. *)
Theorem build_relative_path_raises w a b e rest :
  split slash (get_abs_dirname w a)
  = split slash (get_abs_dirname w b) ++ e :: rest ->
  build_relative_path w a b = Raise IndexError.
Proof.
  intros H. unfold build_relative_path.
  destruct (String.eqb_spec (get_abs_dirname w a) (get_abs_dirname w b))
    as [E|_].
  - rewrite E in H. apply (f_equal (@List.length _)) in H.
    rewrite length_app in H. simpl in H. lia.
  - rewrite H, same_elems_prefix. reflexivity.
Qed.

Lemma build_relative_path_raises_witness :
  build_relative_path w_repo "/repo/fn" "/repo" = Raise IndexError.
Proof.
  apply (build_relative_path_raises w_repo "/repo/fn" "/repo" "fn" []).
  reflexivity.
Defined.

(** C4. For a path that resolves to a regular file, [get_abs_dirname]
    returns the name of the file, which is not an absolute path, where its
    documentation announces the absolute path of the containing directory;
    [build_relative_path] then returns the path as given only if the
    reference root resolves to the same name, and the name of the file
    otherwise. *)
Theorem get_abs_dirname_of_file w p :
  Os.isfile w (abspath (cwd w) p) = true ->
  get_abs_dirname w p = basename (abspath (cwd w) p)
  /\ isabs (get_abs_dirname w p) = false
  /\ forall b,
       build_relative_path w p b
       = if String.eqb (get_abs_dirname w p) (get_abs_dirname w b)
         then Ok p else Ok (basename (abspath (cwd w) p)).
Proof.
  intros H. destruct (get_abs_dirname_file w p H) as [E V].
  repeat split; [assumption|now apply valid_name_not_abs|].
  intros b. now apply build_relative_path_of_file.
Qed.

Lemma get_abs_dirname_of_file_witness :
  get_abs_dirname w_repo "/repo/fn/main.py" = "main.py"
  /\ dirname (abspath (cwd w_repo) "/repo/fn/main.py") = "/repo/fn".
Proof.
  split; [|reflexivity].
  apply (proj1 (get_abs_dirname_of_file w_repo "/repo/fn/main.py" eq_refl)).
Defined.







(** C7. The sweep looks every name of [builds] up in the working directory,
    not in [builds]: with a ten-day-old and a one-day-old archive in
    [builds] and neither name in the working directory, both lookups fail
    with "not found", which is ignored, and nothing is removed. *)
Theorem sweep_removes_nothing :
  Os.listdir w_mod "builds" = Ok ["old.zip"; "new.zip"]
  /\ Os.getmtime w_mod "builds/old.zip" = Ok ten_days_ago
  /\ (ten_days_ago < now0 - seven_days)%Z
  /\ Os.getmtime w_mod "old.zip" = Raise (OSError ENOENT)
  /\ delete_old_archives now0 w_mod = Ok w_mod.
Proof. repeat split; reflexivity. Qed.





(** C10. [update_hash] feeds the relative path and then the content, with
    nothing between them or around them; a directory holding the file [ab]
    with content [c] and one holding the file [a] with content [bc] have
    the same digest. *)
Theorem name_content_boundary_collision :
  (forall w h file_root file_path,
      update_hash w h file_root file_path
      = (rel <- relpath (cwd w) file_path file_root ;;
         data <- Os.read_file w file_path ;;
         Ok (h ++ encode rel ++ data)))
  /\ root w_ab <> root w_a_bc
  /\ Os.walk w_ab "src" = [("src", [], ["ab"])]
  /\ Os.read_file w_ab "src/ab" = Ok (encode "c")
  /\ Os.walk w_a_bc "src" = [("src", [], ["a"])]
  /\ Os.read_file w_a_bc "src/a" = Ok (encode "bc")
  /\ generate_content_hash w_ab ["src"] = Ok (encode "abc")
  /\ generate_content_hash w_a_bc ["src"] = Ok (encode "abc")
  /\ exists digest,
       content_digest w_ab ["src"] "go1.x" "zip" = Ok digest
       /\ content_digest w_a_bc ["src"] "go1.x" "zip" = Ok digest.
Proof.
  split; [|repeat split; try reflexivity; try discriminate].
  - intros w h file_root file_path. unfold update_hash.
    destruct (relpath (cwd w) file_path file_root) as [rel|]; [|reflexivity].
    simpl. destruct (Os.read_file w file_path) as [d|]; [|reflexivity].
    simpl. rewrite read_chunks_all by (try lia). unfold update.
    now rewrite <- app_assoc.
  - eexists. split; vm_compute; reflexivity.
Qed.

(** ** The embedding of the Python library on sample inputs

    The right-hand sides are what CPython 3.11 returns. *)

Example t_split : map (split slash) [""; "/"; "a//b"; "/a/b/"] =
  [[""]; [""; ""]; ["a"; ""; "b"]; [""; "a"; "b"; ""]].
Proof. reflexivity. Qed.

Example t_norm : map normpath [""; "/"; "//"; "///"; "a"; "a/"; "/a/b/../c"; "a/../.."; "/.."; "//a//b/./"; "."; ".."; "../x"; "/a/b/"; "//.."; "a//b"] =
 ["."; "/"; "//"; "/"; "a"; "a"; "/a/c"; ".."; "/"; "//a/b"; "."; ".."; "../x"; "/a/b"; "//"; "a/b"].
Proof. reflexivity. Qed.

Example t_base : map basename [""; "/"; "//"; "///"; "a"; "a/"; "/a/b/../c"; "a/../.."; "/.."; "//a//b/./"; "."; ".."; "../x"; "/a/b/"; "//.."; "a//b"] =
 [""; ""; ""; ""; "a"; ""; "c"; ".."; ".."; ""; "."; ".."; "x"; ""; ".."; "b"].
Proof. reflexivity. Qed.

Example t_dir : map dirname [""; "/"; "//"; "///"; "a"; "a/"; "/a/b/../c"; "a/../.."; "/.."; "//a//b/./"; "."; ".."; "../x"; "/a/b/"; "//.."; "a//b"] =
 [""; "/"; "//"; "///"; ""; "a"; "/a/b/.."; "a/.."; "/"; "//a//b/."; ""; ""; ".."; "/a/b"; "//"; "a"].
Proof. reflexivity. Qed.

Example t_rel : map (fun '(p, s) => relpath "/w" p s) [("/a/b/c", "/a"); ("/a", "/a/b/c"); ("/a", "/a"); ("/a/b", "/a/c/d"); ("x/f", "x"); ("f", "")] =
  map Ok ["b/c"; "../.."; "."; "../../b"; "f"; "f"].
Proof. reflexivity. Qed.

Example t_repl : [replace "/a/x/ab/y" "/a" ""; replace_count "a/b/c" "/" "" (Some 1); replace "zip $filename $source" "$filename" "F"; replace "abc" "" "-"; replace "aaa" "aa" "b"] =
  ["/xb/y"; "ab/c"; "zip F $source"; "-a-b-c-"; "ba"].
Proof. reflexivity. Qed.

Example t_sha_abc : Sha256.hexdigest (encode "abc") =
  "ba7816bf8f01cfea414140de5dae2223b00361a396177a9cb410ff61f20015ad".
Proof. vm_compute. reflexivity. Qed.
Example t_sha_empty : Sha256.hexdigest [] =
  "e3b0c44298fc1c149afbf4c8996fb92427ae41e4649b934ca495991b7852b855".
Proof. vm_compute. reflexivity. Qed.
Example t_sha_56 : Sha256.hexdigest (repeat "a"%byte 56) =
  "b35439a4ac6f0948b6d6f9e3c6af0f5f590ce20f1bde7090ef7970686ec6738a".
Proof. vm_compute. reflexivity. Qed.
Example t_sha_119 : Sha256.hexdigest (repeat "a"%byte 119) =
  "31eba51c313a5c08226adf18d4a359cfdfd8d2e816b13f4af952f7ea6584dcfb".
Proof. vm_compute. reflexivity. Qed.

Example t_stat :
  map (fun p => (Os.isdir w_repo p, Os.isfile w_repo p))
      ["fn"; "fn/"; "./fn/lib/.."; "fn/main.py"; "fn/main.py/"; "/repo/mod/../fn";
       "nope/../fn"; ""; "/"]
  = [(true, false); (true, false); (true, false); (false, true);
     (false, false); (true, false); (false, false); (false, false);
     (true, false)].
Proof. reflexivity. Qed.

Example t_walk :
  Os.walk w_repo "fn"
  = [("fn", ["lib"], ["main.py"; "b.py"]); ("fn/lib", [], ["util.py"])].
Proof. reflexivity. Qed.

Example t_list_files :
  list_files w_repo "fn" = ["fn/b.py"; "fn/lib/util.py"; "fn/main.py"].
Proof. reflexivity. Qed.

Example t_remove :
  (w <- Os.remove w_mod "builds/old.zip" ;; Os.listdir w "builds")
  = Ok ["new.zip"]
  /\ Os.remove w_mod "builds" = Raise (OSError EISDIR)
  /\ Os.remove w_mod "old.zip" = Raise (OSError ENOENT).
Proof. repeat split; reflexivity. Qed.

(** * Further properties of the code *)

(** ** list_files *)

Lemma insert_sorted_in x y l : In y (insert_sorted x l) -> y = x \/ In y l.
Proof.
  intros H. apply (Permutation_in _ (Permutation_sym (insert_sorted_perm x l))) in H.
  destruct H; auto.
Qed.

Lemma insert_sorted_strongly x l :
  StronglySorted le_string l -> StronglySorted le_string (insert_sorted x l).
Proof.
  induction 1 as [|y r Hr IH Hy]; simpl.
  - repeat constructor.
  - destruct (String.leb x y) eqn:E.
    + constructor; [now constructor|]. constructor; [exact E|].
      rewrite Forall_forall in *. intros z Hz.
      eapply string_leb_trans; [exact E|now apply Hy].
    + constructor; [assumption|]. rewrite Forall_forall in *.
      intros z Hz. apply insert_sorted_in in Hz as [->|Hz]; [|now apply Hy].
      now apply string_leb_false.
Qed.

Lemma sort_strongly l : StronglySorted le_string (sort l).
Proof.
  induction l as [|x r IH]; simpl; [constructor|].
  now apply insert_sorted_strongly.
Qed.

Lemma sort_sorted_id l : StronglySorted le_string l -> sort l = l.
Proof.
  induction 1 as [|x r Hr IH Hx]; [reflexivity|]. simpl. rewrite IH.
  destruct r as [|y r']; [reflexivity|]. simpl.
  inversion Hx as [|? ? Hxy _]; subst. unfold le_string in Hxy.
  now rewrite Hxy.
Qed.

(** X1. [list_files] returns the paths of the walk in ascending order: the
    result is sorted and holds the same paths as the walk, each as often, and
    it is the only sorted list that does. *)
Theorem list_files_sorted w top_path :
  StronglySorted le_string (list_files w top_path)
  /\ Permutation (walk_paths (Os.walk w top_path)) (list_files w top_path)
  /\ forall l, Permutation (walk_paths (Os.walk w top_path)) l ->
               StronglySorted le_string l -> l = list_files w top_path.
Proof.
  unfold list_files. fold (walk_paths (Os.walk w top_path)).
  split; [apply sort_strongly|]. split; [apply sort_perm|].
  intros l Hp Hs. rewrite (sort_permutation _ _ Hp). symmetry.
  now apply sort_sorted_id.
Qed.

Lemma join2_join_snoc segs k :
  Forall (fun x => valid_name x = true) segs -> valid_name k = true ->
  join2 (Str.join "/" segs) k = Str.join "/" (segs ++ [k]).
Proof.
  intros Hsegs Hk. destruct segs as [|s0 sr]; [now apply join2_empty|].
  rewrite join_snoc by discriminate. apply join2_name; [|assumption].
  destruct (@exists_last _ (s0 :: sr)) as (l' & a & E); [discriminate|].
  rewrite E in *. apply Forall_app in Hsegs as [_ Ha].
  inversion Ha as [|? ? Hv _]; subst.
  destruct l' as [|y l'']; [exact (open_end_app "" a Hv)|].
  rewrite join_snoc by discriminate.
  replace (Str.join "/" (y :: l'') +:+ "/" +:+ a)
    with ((Str.join "/" (y :: l'') +:+ "/") +:+ a)
    by now rewrite append_assoc.
  now apply open_end_app.
Qed.

Lemma lookup_some_in k c es : Os.lookup k es = Some c -> In (k, c) es.
Proof.
  induction es as [|[k' c'] r IH]; [discriminate|]. simpl.
  destruct (String.eqb_spec k' k) as [->|_].
  - intros H. inversion H. now left.
  - intros H. right. auto.
Qed.

Lemma sub_data_in top k c es x :
  In (k, c) es -> In x (walk_data (join2 top k) c) -> In x (sub_data top es).
Proof.
  induction es as [|[k' c'] r IH]; [contradiction|]. simpl.
  intros [E|H] Hx; apply in_or_app.
  - inversion E; subst. now left.
  - right. auto.
Qed.

(** Every regular file below a directory is found by [walk_data]. *)
Lemma walk_data_complete n :
  forall segs rel m d, wf_node n = true ->
  Forall (fun x => valid_name x = true) segs ->
  Forall (fun x => valid_name x = true) rel -> rel <> [] ->
  Os.get n rel = Some (File m d) ->
  In (Str.join "/" (segs ++ rel), d) (walk_data (Str.join "/" segs) n).
Proof.
  induction n as [m0 d0|m0 es IH] using node_induction;
    intros segs rel m d Hwf Hsegs Hrel Hne Hget.
  { destruct rel; [congruence|discriminate]. }
  destruct rel as [|k rest]; [congruence|].
  inversion Hrel as [|? ? Hk Hrest]; subst.
  rewrite wf_node_dir in Hwf. rewrite walk_data_dir. simpl in Hget.
  destruct (Os.lookup k es) as [c|] eqn:El; [|discriminate].
  pose proof (lookup_some_in _ _ _ El) as Hin.
  apply in_or_app. destruct rest as [|k' rest'].
  - left. simpl in Hget. inversion Hget; subst.
    unfold level_files. apply in_flat_map. exists (k, File m d).
    split; [assumption|]. simpl. left.
    now rewrite join2_join_snoc.
  - right. apply (sub_data_in _ k c es); [assumption|].
    rewrite join2_join_snoc by assumption.
    rewrite Forall_forall in IH. specialize (IH (k, c) Hin). simpl in IH.
    replace (segs ++ k :: k' :: rest') with ((segs ++ [k]) ++ k' :: rest')
      by now rewrite <- app_assoc.
    destruct (wf_entries_in k c es Hwf Hin) as [_ Hc].
    apply (IH _ _ m); try assumption; try discriminate.
    apply Forall_app. split; [assumption|now constructor].
Qed.

Lemma list_files_paths w top n :
  Os.stat w top = Ok n -> wf_node n = true ->
  list_files w top
  = map (String.append (join2 top "")) (sort (map fst (walk_data "" n))).
Proof.
  intros Hst Hwf. unfold list_files, Os.walk. rewrite Hst.
  fold (walk_paths (Os.walk_node top n)). rewrite <- walk_data_paths.
  rewrite (walk_data_moved _ _ _ _ (moved_top top) Hwf).
  rewrite map_map. unfold shift at 1. simpl fst.
  now rewrite <- (map_map fst (String.append (join2 top ""))), sort_prefix.
Qed.

Lemma sort_in_iff x l : In x (sort l) <-> In x l.
Proof.
  split; [apply sort_in|]. apply Permutation_in, sort_perm.
Qed.

(** X2. Below an existing top path whose tree is well formed, [list_files]
    returns exactly the regular files at any depth, each as the top path
    joined with the names that lead to it. Directories are not listed, and
    every listed path is a regular file. *)
Theorem list_files_regular_files w top n :
  Os.stat w top = Ok n -> wf_node n = true ->
  (forall p, In p (list_files w top) <->
     exists rel m d,
       Forall (fun x => valid_name x = true) rel /\ rel <> []
       /\ Os.get n rel = Some (File m d)
       /\ p = join2 top (Str.join "/" rel))
  /\ (forall p, In p (list_files w top) -> Os.isfile w p = true).
Proof.
  intros Hst Hwf.
  assert (Hiff : forall p, In p (list_files w top) <->
     exists rel m d,
       Forall (fun x => valid_name x = true) rel /\ rel <> []
       /\ Os.get n rel = Some (File m d)
       /\ p = join2 top (Str.join "/" rel)).
  { intros p. rewrite (list_files_paths w top n Hst Hwf), in_map_iff. split.
    - intros (r & <- & Hr). apply sort_in in Hr.
      apply in_map_iff in Hr as ([r' d] & E & Hin). simpl in E. subst r'.
      destruct (walk_data_get n [] r d Hwf Hin (Forall_nil _))
        as (rel & m & Hrel & Hne & -> & Hget).
      exists rel, m, d. repeat split; try assumption.
      simpl app. symmetry. apply join2_prefix.
      now apply join_names_not_abs.
    - intros (rel & m & d & Hrel & Hne & Hget & ->).
      exists (Str.join "/" rel). split.
      + symmetry. apply join2_prefix. now apply join_names_not_abs.
      + apply sort_in_iff, in_map_iff. exists (Str.join "/" rel, d).
        split; [reflexivity|].
        apply (walk_data_complete n [] rel m d Hwf (Forall_nil _) Hrel Hne Hget). }
  split; [exact Hiff|].
  intros p Hp. apply Hiff in Hp as (rel & m & d & Hrel & Hne & Hget & ->).
  unfold Os.isfile. now rewrite (stat_below w top n rel _ Hst Hget Hrel Hne).
Qed.

Lemma list_files_regular_files_witness :
  In "fn/lib/util.py" (list_files w_repo "fn")
  /\ Os.isfile w_repo "fn/lib/util.py" = true.
Proof.
  destruct (list_files_regular_files w_repo "fn" fn_tree eq_refl eq_refl)
    as [Hiff Hfile].
  assert (H : In "fn/lib/util.py" (list_files w_repo "fn")).
  { apply Hiff. exists ["lib"; "util.py"], 13%Z, (encode "x = 1").
    repeat split; try reflexivity; try discriminate. repeat constructor. }
  split; [exact H|exact (Hfile _ H)].
Defined.

(** X3. The order in which the directories list their entries does not show
    in the result of [list_files]: two trees whose files have the same
    relative names and content, met in any order, give the same list. *)
Theorem list_files_listing_order w1 w2 top n1 n2 :
  Os.stat w1 top = Ok n1 -> Os.stat w2 top = Ok n2 ->
  wf_node n1 = true -> wf_node n2 = true ->
  Permutation (walk_data "" n1) (walk_data "" n2) ->
  list_files w1 top = list_files w2 top.
Proof.
  intros S1 S2 W1 W2 Hp.
  rewrite (list_files_paths _ _ _ S1 W1), (list_files_paths _ _ _ S2 W2).
  f_equal. apply sort_permutation. now apply Permutation_map.
Qed.

Lemma list_files_listing_order_witness :
  list_files w_repo "fn" = list_files w_backup "fn".
Proof.
  apply (list_files_listing_order w_repo w_backup "fn" fn_tree fn_copy);
    try reflexivity.
  vm_compute. apply perm_swap.
Defined.

(** ** generate_content_hash and update_hash *)

Lemma update_hash_unfold w h file_root file_path :
  update_hash w h file_root file_path
  = (rel <- relpath (cwd w) file_path file_root ;;
     data <- Os.read_file w file_path ;;
     Ok (h ++ encode rel ++ data)).
Proof.
  unfold update_hash.
  destruct (relpath (cwd w) file_path file_root) as [rel|]; [|reflexivity].
  simpl. destruct (Os.read_file w file_path) as [d|]; [|reflexivity].
  simpl. rewrite read_chunks_all by (try lia). unfold update.
  now rewrite <- app_assoc.
Qed.

(** What has been fed before does not change what a step feeds. *)
Lemma update_hash_after w h file_root file_path :
  update_hash w h file_root file_path
  = (s <- update_hash w [] file_root file_path ;; Ok (h ++ s)).
Proof.
  rewrite !update_hash_unfold.
  destruct (relpath _ _ _); [|reflexivity]. simpl.
  destruct (Os.read_file _ _); reflexivity.
Qed.

Lemma update_hash_files_after w source_dir files : forall h,
  update_hash_files w h source_dir files
  = (s <- update_hash_files w [] source_dir files ;; Ok (h ++ s)).
Proof.
  induction files as [|f r IH]; intros h; simpl.
  - now rewrite app_nil_r.
  - rewrite update_hash_after.
    destruct (update_hash w [] source_dir f) as [s|]; [|reflexivity]. simpl.
    rewrite IH, (IH s).
    destruct (update_hash_files w [] source_dir r); simpl; [|reflexivity].
    now rewrite app_assoc.
Qed.

Lemma hash_source_path_after w h p :
  hash_source_path w h p = (s <- hash_source_path w [] p ;; Ok (h ++ s)).
Proof.
  unfold hash_source_path. destruct (Os.isdir w p).
  - apply update_hash_files_after.
  - apply update_hash_after.
Qed.

Lemma hash_source_paths_after w ps : forall h,
  hash_source_paths w h ps = (s <- hash_source_paths w [] ps ;; Ok (h ++ s)).
Proof.
  induction ps as [|p r IH]; intros h; simpl.
  - now rewrite app_nil_r.
  - rewrite hash_source_path_after.
    destruct (hash_source_path w [] p) as [s|]; [|reflexivity]. simpl.
    rewrite IH, (IH s).
    destruct (hash_source_paths w [] r); simpl; [|reflexivity].
    now rewrite app_assoc.
Qed.

Lemma hash_source_paths_app w l1 l2 : forall h,
  hash_source_paths w h (l1 ++ l2)
  = (h1 <- hash_source_paths w h l1 ;; hash_source_paths w h1 l2).
Proof.
  induction l1 as [|p r IH]; intros h; [reflexivity|]. simpl.
  destruct (hash_source_path w h p); [apply IH|reflexivity].
Qed.

(** X4. Hashing a list of paths feeds the bytes of its first part followed
    by the bytes of the rest: what a path feeds does not depend on what was
    fed before it, and an error in either part is the error of the whole. *)
Theorem generate_content_hash_app w l1 l2 :
  generate_content_hash w (l1 ++ l2)
  = (s1 <- generate_content_hash w l1 ;;
     s2 <- generate_content_hash w l2 ;;
     Ok (s1 ++ s2)).
Proof.
  unfold generate_content_hash. rewrite hash_source_paths_app.
  destruct (hash_source_paths w [] l1) as [s1|]; [|reflexivity]. simpl.
  apply hash_source_paths_after.
Qed.

Lemma relpath_nonempty cwd path start :
  path <> "" -> exists r, relpath cwd path start = Ok r.
Proof.
  intros H. unfold relpath. destruct path; [congruence|].
  destruct (_ ++ _); eauto.
Qed.

Lemma hash_source_path_missing w h p e :
  Os.stat w p = Raise e ->
  hash_source_path w h p = Raise (if String.eqb p "" then ValueError else e).
Proof.
  intros Hst. unfold hash_source_path, Os.isdir. rewrite Hst.
  rewrite update_hash_unfold.
  destruct (String.eqb_spec p "") as [->|Hne]; [reflexivity|].
  destruct (relpath_nonempty (cwd w) p (dirname p) Hne) as (r & ->).
  simpl. unfold Os.read_file. now rewrite Hst.
Qed.

(** X5. A path that cannot be looked up stops the hashing: when the paths
    before it hash, the error of the lookup is raised ([ValueError] from
    [relpath] when the path is empty), and no digest is produced. *)
Theorem missing_source_path_is_fatal w pre p rest e runtime build_command :
  Os.stat w p = Raise e ->
  (exists s, generate_content_hash w pre = Ok s) ->
  generate_content_hash w (pre ++ p :: rest)
  = Raise (if String.eqb p "" then ValueError else e)
  /\ content_digest w (pre ++ p :: rest) runtime build_command
     = Raise (if String.eqb p "" then ValueError else e).
Proof.
  intros Hst (s & Hpre).
  assert (E : generate_content_hash w (pre ++ p :: rest)
              = Raise (if String.eqb p "" then ValueError else e)).
  { unfold generate_content_hash in *. rewrite hash_source_paths_app, Hpre.
    simpl. now rewrite (hash_source_path_missing w s p e Hst). }
  split; [exact E|]. unfold content_digest. now rewrite E.
Qed.

Lemma missing_source_path_is_fatal_witness :
  generate_content_hash w_repo (["fn"] ++ "gone" :: ["shared"])
  = Raise (OSError ENOENT)
  /\ generate_content_hash w_repo ([] ++ "" :: ["fn"]) = Raise ValueError.
Proof.
  split.
  - apply (missing_source_path_is_fatal w_repo ["fn"] "gone" ["shared"]
             (OSError ENOENT) "" "" eq_refl).
    eexists. vm_compute. reflexivity.
  - apply (missing_source_path_is_fatal w_repo [] "" ["fn"]
             (OSError ENOENT) "" "" eq_refl).
    eexists. reflexivity.
Defined.

Lemma hash_source_paths_ok_exist w ps : forall h h',
  hash_source_paths w h ps = Ok h' ->
  forall p, In p ps -> exists n, Os.stat w p = Ok n.
Proof.
  induction ps as [|q r IH]; intros h h' H p Hin; [contradiction|].
  simpl in H. destruct (hash_source_path w h q) as [h1|] eqn:E; [|discriminate].
  destruct Hin as [<-|Hin]; [|exact (IH _ _ H p Hin)].
  destruct (Os.stat w q) as [n|e] eqn:Es; [eauto|].
  rewrite (hash_source_path_missing w h q e Es) in E. discriminate.
Qed.

(** X6. A digest is produced only if every path of the list is a directory
    or a regular file. *)
Theorem digest_requires_every_path w hash_dirs runtime build_command digest :
  content_digest w hash_dirs runtime build_command = Ok digest ->
  forall p, In p hash_dirs -> Os.isdir w p = true \/ Os.isfile w p = true.
Proof.
  unfold content_digest, generate_content_hash.
  destruct (hash_source_paths w [] hash_dirs) as [s|] eqn:E; [|discriminate].
  intros _ p Hin.
  destruct (hash_source_paths_ok_exist w hash_dirs [] s E p Hin) as (n & Hn).
  unfold Os.isdir, Os.isfile. rewrite Hn. destruct n; auto.
Qed.

Lemma digest_requires_every_path_witness :
  Os.isdir w_repo "fn" = true \/ Os.isfile w_repo "fn" = true.
Proof.
  eapply (digest_requires_every_path w_repo ["fn"; "shared/a.txt"] "go1.x"
            "zip").
  - vm_compute. reflexivity.
  - now left.
Defined.

Lemma retime_dir f m es : retime f (Dir m es) = Dir (f m) (retime_entries f es).
Proof. simpl. f_equal. induction es as [|[k c] r IH]; simpl; congruence. Qed.

Lemma lookup_retime f k es :
  Os.lookup k (retime_entries f es) = option_map (retime f) (Os.lookup k es).
Proof.
  induction es as [|[k' c] r IH]; [reflexivity|]. simpl.
  destruct (String.eqb k' k); [reflexivity|exact IH].
Qed.

Lemma get_retime f loc : forall n,
  Os.get (retime f n) loc = option_map (retime f) (Os.get n loc).
Proof.
  induction loc as [|s r IH]; intros n; [reflexivity|].
  destruct n as [m d|m es]; [reflexivity|].
  rewrite retime_dir. simpl. rewrite lookup_retime.
  destruct (Os.lookup s es); [apply IH|reflexivity].
Qed.

Lemma follow_retime f fs comps : forall loc,
  Os.follow (retime f fs) loc comps = Os.follow fs loc comps.
Proof.
  induction comps as [|c rest IH]; intros loc; [reflexivity|]. simpl.
  rewrite get_retime. destruct (Os.get fs loc) as [[m d|m es]|]; try reflexivity.
  cbn [option_map]. rewrite retime_dir. cbv iota.
  destruct (_ || _); [apply IH|].
  destruct (String.eqb c ".."); [apply IH|].
  rewrite lookup_retime. destruct (Os.lookup c es); [apply IH|reflexivity].
Qed.

Lemma resolve_retime f w p :
  Os.resolve (retime_world f w) p = Os.resolve w p.
Proof.
  unfold Os.resolve. simpl. destruct p; [reflexivity|].
  rewrite !follow_retime.
  destruct (isabs _); [reflexivity|].
  destruct (Os.follow (root w) [] (split slash (cwd w))); [reflexivity|].
  apply follow_retime.
Qed.

Lemma stat_retime f w p :
  Os.stat (retime_world f w) p
  = match Os.stat w p with
    | Ok n => Ok (retime f n)
    | Raise e => Raise e
    end.
Proof.
  unfold Os.stat. rewrite resolve_retime.
  destruct (Os.resolve w p) as [e|loc]; [reflexivity|].
  simpl root. rewrite get_retime. now destruct (Os.get (root w) loc).
Qed.

Lemma isdir_retime f w p : Os.isdir (retime_world f w) p = Os.isdir w p.
Proof.
  unfold Os.isdir. rewrite stat_retime.
  destruct (Os.stat w p) as [[|]|]; reflexivity.
Qed.

Lemma read_file_retime f w p :
  Os.read_file (retime_world f w) p = Os.read_file w p.
Proof.
  unfold Os.read_file. rewrite stat_retime.
  destruct (Os.stat w p) as [[|]|]; reflexivity.
Qed.

Lemma dirs_of_retime f es : Os.dirs_of (retime_entries f es) = Os.dirs_of es.
Proof.
  unfold Os.dirs_of. induction es as [|[k [m d|m l]] r IH]; simpl;
    [reflexivity|exact IH|]. now rewrite IH.
Qed.

Lemma files_of_retime f es : Os.files_of (retime_entries f es) = Os.files_of es.
Proof.
  unfold Os.files_of. induction es as [|[k [m d|m l]] r IH]; simpl;
    [reflexivity| |exact IH]. now rewrite IH.
Qed.

Lemma walk_node_retime f n : forall top,
  Os.walk_node top (retime f n) = Os.walk_node top n.
Proof.
  induction n as [m d|m es IH] using node_induction; intros top;
    [reflexivity|].
  rewrite retime_dir, !walk_node_dir, dirs_of_retime, files_of_retime.
  f_equal. induction es as [|[k c] r IHr]; [reflexivity|].
  inversion IH as [|? ? Hc Hr]; subst. simpl in *.
  now rewrite Hc, IHr.
Qed.

Lemma list_files_retime f w top :
  list_files (retime_world f w) top = list_files w top.
Proof.
  unfold list_files, Os.walk. rewrite stat_retime.
  destruct (Os.stat w top); [|reflexivity]. now rewrite walk_node_retime.
Qed.

Lemma update_hash_retime f w h r p :
  update_hash (retime_world f w) h r p = update_hash w h r p.
Proof. unfold update_hash. now rewrite read_file_retime. Qed.

Lemma update_hash_files_retime f w d files : forall h,
  update_hash_files (retime_world f w) h d files = update_hash_files w h d files.
Proof.
  induction files as [|x r IH]; intros h; [reflexivity|]. simpl.
  rewrite update_hash_retime. destruct (update_hash w h d x); [apply IH|reflexivity].
Qed.

Lemma hash_source_path_retime f w h p :
  hash_source_path (retime_world f w) h p = hash_source_path w h p.
Proof.
  unfold hash_source_path.
  now rewrite isdir_retime, list_files_retime, update_hash_files_retime,
    update_hash_retime.
Qed.

(** X7. The digest does not depend on modification times: changing every
    modification time of the tree by any function leaves the digest, or the
    error raised, as it was. *)
Theorem digest_ignores_modification_times f w hash_dirs runtime build_command :
  content_digest (retime_world f w) hash_dirs runtime build_command
  = content_digest w hash_dirs runtime build_command.
Proof.
  unfold content_digest, generate_content_hash.
  assert (E : forall h, hash_source_paths (retime_world f w) h hash_dirs
                        = hash_source_paths w h hash_dirs).
  { induction hash_dirs as [|p r IH]; intros h; [reflexivity|]. simpl.
    rewrite hash_source_path_retime.
    destruct (hash_source_path w h p); [apply IH|reflexivity]. }
  now rewrite E.
Qed.

(** ** The result of build_relative_path *)

(** X8. Whatever [build_relative_path] returns is the path as given, the
    result of [get_abs_dirname] for it, or the path as given after one or
    more [../]: the text of the path is never rewritten. *)
Theorem build_relative_path_result w a b r :
  build_relative_path w a b = Ok r ->
  r = a \/ r = get_abs_dirname w a
  \/ exists n, (0 < n)%nat /\ r = climb n +:+ a.
Proof.
  unfold build_relative_path.
  destruct (String.eqb _ _); [intros H; inversion H; auto|].
  destruct (same_elems _ _ _) as [selem|]; [|discriminate]. simpl.
  destruct (_ <? _)%nat; intros H; inversion H; [auto|].
  right. right. rewrite climb_fold. simpl String.append.
  match goal with
  | |- context [List.length (split slash ?s)] =>
      destruct (split_cons slash s) as (x & t & ->)
  end.
  exists (S (List.length t)). split; [lia|reflexivity].
Qed.

Lemma build_relative_path_result_witness :
  "../fn" = "fn" \/ "../fn" = get_abs_dirname w_repo "fn"
  \/ exists n, (0 < n)%nat /\ "../fn" = climb n +:+ "fn".
Proof.
  apply (build_relative_path_result w_repo "fn" "mod" "../fn"). reflexivity.
Defined.

(** ** delete_old_archives *)





(** ** What [os.remove] leaves in place *)

Lemma lookup_filter c s es :
  Os.lookup c (filter (fun e => negb (String.eqb (fst e) s)) es)
  = if String.eqb c s then None else Os.lookup c es.
Proof.
  induction es as [|[k x] r IH]; simpl; [now destruct (String.eqb c s)|].
  destruct (String.eqb_spec k s) as [->|Hks]; simpl.
  - rewrite IH. destruct (String.eqb_spec c s) as [->|Hcs]; [reflexivity|].
    destruct (String.eqb_spec s c); [congruence|reflexivity].
  - destruct (String.eqb_spec k c) as [->|Hkc].
    + destruct (String.eqb_spec c s); [congruence|reflexivity].
    + exact IH.
Qed.

Lemma lookup_update c s loc es :
  Os.lookup c (map (fun e => if String.eqb (fst e) s
                             then (fst e, Os.remove_at (snd e) loc) else e) es)
  = if String.eqb c s
    then option_map (fun x => Os.remove_at x loc) (Os.lookup s es)
    else Os.lookup c es.
Proof.
  induction es as [|[k x] r IH]; simpl; [now destruct (String.eqb c s)|].
  destruct (String.eqb_spec k s) as [->|Hks]; simpl.
  - destruct (String.eqb_spec s c) as [<-|Hsc].
    + now rewrite String.eqb_refl.
    + rewrite IH. destruct (String.eqb_spec c s); [congruence|reflexivity].
  - destruct (String.eqb_spec k c) as [->|Hkc].
    + destruct (String.eqb_spec c s); [congruence|reflexivity].
    + exact IH.
Qed.

Lemma remove_at_file m d L : Os.remove_at (File m d) L = File m d.
Proof. destruct L as [|s [|s' r]]; reflexivity. Qed.

Lemma remove_at_last m es s :
  Os.remove_at (Dir m es) [s]
  = Dir m (filter (fun e => negb (String.eqb (fst e) s)) es).
Proof. reflexivity. Qed.

Lemma remove_at_inner m es s s' r :
  Os.remove_at (Dir m es) (s :: s' :: r)
  = Dir m (map (fun e => if String.eqb (fst e) s
                         then (fst e, Os.remove_at (snd e) (s' :: r)) else e) es).
Proof. reflexivity. Qed.

Lemma is_prefix_cons c l1 l2 : is_prefix (c :: l1) (c :: l2) <-> is_prefix l1 l2.
Proof.
  split; intros (r & E); exists r; simpl in *; congruence.
Qed.

(** A location that is neither above nor below the removed one keeps its
    node. *)
Lemma get_remove_at_apart L : forall n loc,
  ~ is_prefix loc L -> ~ is_prefix L loc ->
  Os.get (Os.remove_at n L) loc = Os.get n loc.
Proof.
  induction L as [|s r IH]; intros n loc H1 H2.
  { exfalso. apply H2. now exists loc. }
  destruct loc as [|c lr]; [exfalso; apply H1; now eexists|].
  destruct n as [m d|m es]; [now rewrite remove_at_file|].
  destruct r as [|s' r'].
  - rewrite remove_at_last. cbn [Os.get]. rewrite lookup_filter.
    destruct (String.eqb_spec c s) as [->|_]; [|reflexivity].
    exfalso. apply H2. now exists lr.
  - rewrite remove_at_inner. cbn [Os.get]. rewrite lookup_update.
    destruct (String.eqb_spec c s) as [->|_]; [|reflexivity].
    destruct (Os.lookup s es) as [x|]; [|reflexivity]. simpl.
    apply IH; intros H; [apply H1|apply H2]; now apply is_prefix_cons.
Qed.

(** A directory that is not below the removed location stays a directory,
    and loses no entry but the removed one. *)
Lemma get_remove_at_dir L : forall n loc m es,
  Os.get n loc = Some (Dir m es) -> ~ is_prefix L loc ->
  exists es1,
    Os.get (Os.remove_at n L) loc = Some (Dir m es1)
    /\ forall c x, Os.lookup c es = Some x -> loc ++ [c] <> L ->
                   exists x1, Os.lookup c es1 = Some x1.
Proof.
  induction L as [|s r IH]; intros n loc m es Hget Hnp.
  { exfalso. apply Hnp. now exists loc. }
  destruct n as [m0 d0|m0 es0].
  { rewrite remove_at_file. exists es. split; [assumption|eauto]. }
  destruct loc as [|c0 lr].
  - simpl in Hget. inversion Hget; subst. destruct r as [|s' r'].
    + rewrite remove_at_last. eexists. split; [reflexivity|].
      intros c x Hl Hne. rewrite lookup_filter.
      destruct (String.eqb_spec c s) as [->|_]; [now elim Hne|eauto].
    + rewrite remove_at_inner. eexists. split; [reflexivity|].
      intros c x Hl Hne. rewrite lookup_update.
      destruct (String.eqb_spec c s) as [->|_]; [|eauto].
      rewrite Hl. simpl. eauto.
  - simpl in Hget. destruct (Os.lookup c0 es0) as [y|] eqn:El; [|discriminate].
    destruct r as [|s' r'].
    + rewrite remove_at_last. cbn [Os.get]. rewrite lookup_filter.
      destruct (String.eqb_spec c0 s) as [->|_].
      { exfalso. apply Hnp. now exists lr. }
      rewrite El. exists es. split; [assumption|eauto].
    + rewrite remove_at_inner. cbn [Os.get]. rewrite lookup_update.
      destruct (String.eqb_spec c0 s) as [->|_].
      * rewrite El. simpl.
        destruct (IH y lr m es Hget) as (es1 & G1 & G2).
        { intros H. apply Hnp. now apply is_prefix_cons. }
        exists es1. split; [assumption|].
        intros c x Hl Hne. apply (G2 c x Hl). intros E. apply Hne.
        simpl. now rewrite E.
      * rewrite El. exists es. split; [assumption|eauto].
Qed.

Lemma not_below_file fs L mL dL loc x :
  Os.get fs L = Some (File mL dL) -> Os.get fs loc = Some x ->
  is_prefix L loc -> loc = L.
Proof.
  intros HL Hloc (r & ->). rewrite get_app, HL in Hloc.
  destruct r; [now rewrite app_nil_r|discriminate].
Qed.

(** Resolution goes the same way without the removed file, unless it ends
    on it. *)
Lemma follow_remove_at fs L mL dL :
  Os.get fs L = Some (File mL dL) ->
  forall comps l l',
    Os.follow fs l comps = inr l' -> l' <> L ->
    Os.follow (Os.remove_at fs L) l comps = inr l'.
Proof.
  intros HL. induction comps as [|c rest IH]; intros l l' Hf Hne;
    [exact Hf|].
  simpl in Hf. destruct (Os.get fs l) as [[m d|m es]|] eqn:Hl; try discriminate.
  assert (Hnp : ~ is_prefix L l).
  { intros Hp. pose proof (not_below_file _ _ _ _ _ _ HL Hl Hp) as E.
    subst l. congruence. }
  destruct (get_remove_at_dir L fs l m es Hl Hnp) as (es1 & G1 & G2).
  simpl. rewrite G1.
  destruct (String.eqb c "" || String.eqb c "."); [now apply IH|].
  destruct (String.eqb c ".."); [now apply IH|].
  destruct (Os.lookup c es) as [x|] eqn:Ec; [|discriminate].
  destruct (G2 c x Ec) as (x1 & ->); [|now apply IH].
  intros E. destruct rest as [|c2 rest'].
  - simpl in Hf. inversion Hf. congruence.
  - simpl in Hf. rewrite E, HL in Hf. discriminate.
Qed.

Lemma resolve_remove_at w L mL dL p l' :
  Os.get (root w) L = Some (File mL dL) ->
  Os.resolve w p = inr l' -> l' <> L ->
  Os.resolve {| root := Os.remove_at (root w) L; cwd := cwd w |} p = inr l'.
Proof.
  intros HL Hr Hne. unfold Os.resolve in *. simpl root. simpl cwd.
  destruct p as [|c0 p0]; [discriminate|]. set (p := String c0 p0) in *.
  destruct (isabs p); [now apply (follow_remove_at _ _ _ _ HL)|].
  destruct (Os.follow (root w) [] (split slash (cwd w))) as [e|cl] eqn:Ec;
    [discriminate|].
  assert (Hcl : cl <> L).
  { intros ->. destruct (split_cons slash p) as (h & t & Es).
    rewrite Es in Hr. simpl in Hr. rewrite HL in Hr. discriminate. }
  rewrite (follow_remove_at _ _ _ _ HL _ _ _ Ec Hcl).
  now apply (follow_remove_at _ _ _ _ HL).
Qed.

Lemma remove_inv w q w1 :
  Os.remove w q = Ok w1 ->
  exists L m d,
    Os.resolve w q = inr L /\ Os.get (root w) L = Some (File m d)
    /\ w1 = {| root := Os.remove_at (root w) L; cwd := cwd w |}.
Proof.
  unfold Os.remove. destruct (Os.resolve w q) as [e|L]; [discriminate|].
  destruct (Os.get (root w) L) as [[m d|m es]|] eqn:E; try discriminate.
  intros H. inversion H. eauto 6.
Qed.

(** Removing a file changes nothing for a path that leads neither to the
    file nor to a directory above it. *)
Lemma stat_after_remove w q w1 L p l' x :
  Os.remove w q = Ok w1 -> Os.resolve w q = inr L ->
  Os.resolve w p = inr l' -> Os.get (root w) l' = Some x ->
  ~ is_prefix l' L ->
  Os.stat w1 p = Ok x.
Proof.
  intros Hrm HL Hp Hx Hnp.
  destruct (remove_inv _ _ _ Hrm) as (L' & m & d & HL' & Hget & ->).
  rewrite HL in HL'. inversion HL'; subst L'.
  assert (Hne : l' <> L). { intros ->. apply Hnp. exists []. now rewrite app_nil_r. }
  unfold Os.stat. rewrite (resolve_remove_at w L m d p l' Hget Hp Hne).
  simpl root. rewrite get_remove_at_apart; [now rewrite Hx|assumption|].
  intros Hp'. apply Hne. eapply not_below_file; eassumption.
Qed.

(** ** What the sweep leaves in the working directory *)

Lemma get_remove_at_parent s : forall l n m es,
  Os.get n l = Some (Dir m es) ->
  Os.get (Os.remove_at n (l ++ [s])) l
  = Some (Dir m (filter (fun e => negb (String.eqb (fst e) s)) es)).
Proof.
  induction l as [|c lr IH]; intros n m es Hget.
  - simpl in Hget. inversion Hget. reflexivity.
  - simpl in Hget. destruct n as [|m0 es0]; [discriminate|].
    destruct (Os.lookup c es0) as [y|] eqn:El; [|discriminate].
    change ((c :: lr) ++ [s]) with (c :: (lr ++ [s])).
    destruct (lr ++ [s]) as [|s' r'] eqn:E; [now destruct lr|].
    rewrite remove_at_inner. cbn [Os.get]. rewrite lookup_update.
    rewrite String.eqb_refl, El. simpl option_map. now apply IH.
Qed.

Lemma wf_get loc : forall n x,
  wf_node n = true -> Os.get n loc = Some x -> wf_node x = true.
Proof.
  induction loc as [|c r IH]; intros n x Hwf Hget.
  - simpl in Hget. congruence.
  - simpl in Hget. destruct n as [|m es]; [discriminate|].
    destruct (Os.lookup c es) as [y|] eqn:El; [|discriminate].
    rewrite wf_node_dir in Hwf.
    apply lookup_some_in in El.
    apply (IH y x); [|assumption].
    now apply (wf_entries_in c y es).
Qed.

Lemma wf_entries_names es :
  wf_entries es = true -> Forall (fun k => valid_name k = true) (map fst es).
Proof.
  induction es as [|[k c] r IH]; intros Hwf; [constructor|].
  apply wf_entries_inv in Hwf as (Hk & _ & _ & Hr). constructor; auto.
Qed.

Lemma listdir_valid w p names :
  wf_node (root w) = true -> Os.listdir w p = Ok names ->
  Forall (fun k => valid_name k = true) names.
Proof.
  intros Hwf. unfold Os.listdir.
  destruct (Os.stat w p) as [[m d|m es]|e] eqn:Hst; try discriminate.
  simpl. intros H. inversion H; subst.
  apply stat_inv in Hst as (loc & _ & Hget).
  apply wf_entries_names. rewrite <- (wf_node_dir m).
  exact (wf_get loc _ _ Hwf Hget).
Qed.

(** A name is looked up in the working directory. *)
Lemma resolve_name w cl m es k :
  Os.follow (root w) [] (split slash (cwd w)) = inr cl ->
  Os.get (root w) cl = Some (Dir m es) ->
  valid_name k = true ->
  Os.resolve w k = match Os.lookup k es with
                   | Some _ => inr (cl ++ [k])
                   | None => inl ENOENT
                   end.
Proof.
  intros Hcl Hget Hk. unfold Os.resolve.
  pose proof (valid_name_not_abs k Hk) as Habs.
  apply valid_name_split in Hk as [Hs Hn].
  destruct k as [|c0 k0]; [discriminate|]. set (k := String c0 k0) in *.
  unfold isabs. rewrite Habs, Hcl, (split_slash_free k Hs).
  cbn [Os.follow]. rewrite Hget.
  destruct (is_name_inv k Hn) as [-> ->].
  destruct (Os.lookup k es); reflexivity.
Qed.

Lemma stat_name w cl m es k :
  Os.follow (root w) [] (split slash (cwd w)) = inr cl ->
  Os.get (root w) cl = Some (Dir m es) ->
  valid_name k = true ->
  Os.stat w k = match Os.lookup k es with
                | Some x => Ok x
                | None => Raise (OSError ENOENT)
                end.
Proof.
  intros Hcl Hget Hk. unfold Os.stat.
  rewrite (resolve_name w cl m es k Hcl Hget Hk).
  destruct (Os.lookup k es) as [x|] eqn:El; [|reflexivity].
  rewrite get_app, Hget. simpl. now rewrite El.
Qed.

Lemma stat_dot w m es :
  Os.stat w "." = Ok (Dir m es) <->
  exists cl, Os.follow (root w) [] (split slash (cwd w)) = inr cl
             /\ Os.get (root w) cl = Some (Dir m es).
Proof.
  unfold Os.stat, Os.resolve. simpl isabs. cbv iota.
  change (split slash ".") with ["."].
  destruct (Os.follow (root w) [] (split slash (cwd w))) as [e|cl] eqn:Ecl.
  - split; [discriminate|]. intros (cl & H & _). discriminate.
  - cbn [Os.follow].
    destruct (Os.get (root w) cl) as [[m' d'|m' es']|] eqn:Eg.
    + split; [discriminate|]. intros (cl' & H & G). inversion H; subst.
      congruence.
    + simpl. rewrite Eg. split.
      * intros H. inversion H; subst. eauto.
      * intros (cl' & H & G). inversion H; subst. congruence.
    + split; [discriminate|]. intros (cl' & H & G). inversion H; subst.
      congruence.
Qed.

Lemma existsb_filter_false k (f : string * node -> bool) es :
  existsb (String.eqb k) (map fst es) = false ->
  existsb (String.eqb k) (map fst (filter f es)) = false.
Proof.
  induction es as [|[k' c'] r IH]; [reflexivity|]. simpl.
  intros H. apply orb_false_iff in H as [H1 H2].
  destruct (f (k', c')); simpl; [rewrite H1|]; auto.
Qed.

Lemma wf_entries_filter f es :
  wf_entries es = true -> wf_entries (filter f es) = true.
Proof.
  induction es as [|[k c] r IH]; [reflexivity|]. intros Hwf.
  apply wf_entries_inv in Hwf as (Hk & Hnot & Hc & Hr). simpl.
  destruct (f (k, c)); [|auto]. simpl.
  rewrite Hk, Hc, (IH Hr), (existsb_filter_false k f r Hnot). reflexivity.
Qed.

Lemma filter_swept_id now k es :
  wf_entries es = true ->
  (forall x, Os.lookup k es = Some x ->
             endswith k ".zip" && old_file now x = false) ->
  filter (fun e => negb (swept now [k] e)) es = es.
Proof.
  intros Hwf Hx. apply forallb_filter_id. apply forallb_forall.
  intros [k' x'] Hin. unfold swept. simpl.
  destruct (String.eqb_spec k' k) as [->|_]; [|reflexivity].
  simpl. now rewrite (Hx x' (lookup_wf k x' es Hwf Hin)).
Qed.

(** One turn of the loop, seen from the working directory. *)
Lemma sweep_name_cwd now w k w1 cl m es :
  Os.follow (root w) [] (split slash (cwd w)) = inr cl ->
  Os.get (root w) cl = Some (Dir m es) ->
  wf_entries es = true -> valid_name k = true ->
  sweep_name now w k = Ok w1 ->
  cwd w1 = cwd w
  /\ Os.follow (root w1) [] (split slash (cwd w1)) = inr cl
  /\ Os.get (root w1) cl
     = Some (Dir m (filter (fun e => negb (swept now [k] e)) es)).
Proof.
  intros Hcl Hget Hwf Hk Hs.
  unfold sweep_name in Hs.
  destruct (endswith k ".zip") eqn:Ez.
  2:{ inversion Hs; subst w1. rewrite filter_swept_id; auto.
      intros x _. now rewrite Ez. }
  unfold examine in Hs. simpl os_getmtime in Hs. simpl os_remove in Hs.
  unfold Os.getmtime in Hs. rewrite (stat_name w cl m es k Hcl Hget Hk) in Hs.
  destruct (Os.lookup k es) as [x|] eqn:El.
  2:{ simpl in Hs. inversion Hs; subst w1. rewrite filter_swept_id; auto.
      intros x Hx. congruence. }
  assert (Hmt : (x <- Ok x ;; match x with File m0 _ | Dir m0 _ => Ok m0 end)
                = Ok (match x with File m0 _ | Dir m0 _ => m0 end)).
  { now destruct x. }
  rewrite Hmt in Hs. cbn [bind] in Hs.
  destruct x as [mt d|mt es'].
  - destruct (mt <? now - seven_days)%Z eqn:Eold.
    + unfold Os.remove in Hs.
      rewrite (resolve_name w cl m es k Hcl Hget Hk), El in Hs.
      assert (HL : Os.get (root w) (cl ++ [k]) = Some (File mt d)).
      { rewrite get_app, Hget. simpl. now rewrite El. }
      rewrite HL in Hs. simpl in Hs. inversion Hs; subst w1. simpl root.
      simpl cwd. split; [reflexivity|]. split.
      * apply (follow_remove_at _ _ _ _ HL); [assumption|].
        intros E. apply (f_equal (@List.length string)) in E.
        rewrite length_app in E. simpl in E. lia.
      * rewrite (get_remove_at_parent k cl _ m es Hget). do 2 f_equal.
        apply filter_ext_in. intros [k' x'] Hin. unfold swept. simpl.
        destruct (String.eqb_spec k' k) as [->|_]; [|reflexivity].
        rewrite (lookup_wf k x' es Hwf Hin) in El. inversion El; subst.
        simpl. now rewrite Ez, Eold.
    + inversion Hs; subst w1. rewrite filter_swept_id; auto.
      intros x Hx. rewrite El in Hx. inversion Hx; subst. simpl.
      now rewrite Eold, andb_false_r.
  - destruct (mt <? now - seven_days)%Z eqn:Eold.
    + unfold Os.remove in Hs.
      rewrite (resolve_name w cl m es k Hcl Hget Hk), El in Hs.
      assert (HL : Os.get (root w) (cl ++ [k]) = Some (Dir mt es')).
      { rewrite get_app, Hget. simpl. now rewrite El. }
      rewrite HL in Hs. discriminate.
    + inversion Hs; subst w1. rewrite filter_swept_id; auto.
      intros x Hx. rewrite El in Hx. inversion Hx; subst. simpl.
      now rewrite andb_false_r.
Qed.

Lemma swept_cons now k rest e :
  swept now (k :: rest) e = swept now [k] e || swept now rest e.
Proof.
  unfold swept. simpl.
  destruct (String.eqb (fst e) k), (existsb (String.eqb (fst e)) rest),
    (endswith (fst e) ".zip"), (old_file now (snd e)); reflexivity.
Qed.

Lemma filter_filter {A} (f g : A -> bool) l :
  filter f (filter g l) = filter (fun x => g x && f x) l.
Proof.
  induction l as [|a r IH]; [reflexivity|]. simpl.
  destruct (g a); simpl; [destruct (f a)|]; now rewrite IH.
Qed.

Lemma sweep_names_cwd now names : forall w w' cl m es,
  Os.follow (root w) [] (split slash (cwd w)) = inr cl ->
  Os.get (root w) cl = Some (Dir m es) ->
  wf_entries es = true ->
  Forall (fun k => valid_name k = true) names ->
  sweep_names now w names = Ok w' ->
  cwd w' = cwd w
  /\ Os.follow (root w') [] (split slash (cwd w')) = inr cl
  /\ Os.get (root w') cl
     = Some (Dir m (filter (fun e => negb (swept now names e)) es)).
Proof.
  induction names as [|k rest IH]; intros w w' cl m es Hcl Hget Hwf Hv Hs.
  - simpl in Hs. inversion Hs; subst w'. repeat split; try assumption.
    rewrite Hget. do 2 f_equal. symmetry. apply forallb_filter_id.
    apply forallb_forall. intros e _. reflexivity.
  - inversion Hv as [|? ? Hk Hrest]; subst. simpl in Hs.
    destruct (sweep_name now w k) as [w1|e] eqn:E1; [|discriminate].
    simpl in Hs.
    destruct (sweep_name_cwd now w k w1 cl m es Hcl Hget Hwf Hk E1)
      as (C1 & F1 & G1).
    destruct (IH w1 w' cl m _ F1 G1 (wf_entries_filter _ es Hwf) Hrest Hs)
      as (C2 & F2 & G2).
    split; [congruence|]. split; [assumption|].
    rewrite G2, filter_filter. do 2 f_equal.
    apply filter_ext. intros e. cbv beta.
    rewrite (swept_cons now k rest), negb_orb. reflexivity.
Qed.

Lemma delete_old_archives_cwd now w names w' cl m es :
  wf_node (root w) = true ->
  Os.listdir w "builds" = Ok names ->
  Os.follow (root w) [] (split slash (cwd w)) = inr cl ->
  Os.get (root w) cl = Some (Dir m es) ->
  delete_old_archives now w = Ok w' ->
  cwd w' = cwd w
  /\ Os.follow (root w') [] (split slash (cwd w')) = inr cl
  /\ Os.get (root w') cl
     = Some (Dir m (filter (fun e => negb (swept now names e)) es)).
Proof.
  intros Hwf Hl Hcl Hget Hs. unfold delete_old_archives in Hs.
  simpl os_listdir in Hs. rewrite Hl in Hs. simpl in Hs.
  assert (Hes : wf_entries es = true).
  { rewrite <- (wf_node_dir m). exact (wf_get cl _ _ Hwf Hget). }
  exact (sweep_names_cwd now names w w' cl m es Hcl Hget Hes
           (listdir_valid w "builds" names Hwf Hl) Hs).
Qed.



(** ** What the sweep never touches *)

Lemma lookup_filter_keep k (f : string * node -> bool) es :
  (forall x, f (k, x) = true) ->
  Os.lookup k (filter f es) = Os.lookup k es.
Proof.
  intros Hf. induction es as [|[k' x'] r IH]; [reflexivity|]. simpl.
  destruct (String.eqb_spec k' k) as [->|Hne].
  - rewrite Hf. simpl. now rewrite String.eqb_refl.
  - destruct (f (k', x')); [|exact IH]. simpl.
    destruct (String.eqb_spec k' k); [contradiction|exact IH].
Qed.

Lemma stat_cwd w p n :
  Os.stat w p = Ok n -> isabs p = false ->
  exists m es, Os.stat w "." = Ok (Dir m es).
Proof.
  intros Hst Hrel. apply stat_inv in Hst as (loc & Hres & _).
  unfold Os.resolve in Hres. destruct p as [|c0 p0]; [discriminate|].
  set (p := String c0 p0) in *. rewrite Hrel in Hres.
  destruct (Os.follow (root w) [] (split slash (cwd w))) as [e|cl] eqn:Ecl;
    [discriminate|].
  destruct (split_cons slash p) as (h & t & Es). rewrite Es in Hres.
  simpl in Hres.
  destruct (Os.get (root w) cl) as [[m d|m es]|] eqn:Eg; try discriminate.
  exists m, es. apply stat_dot. eauto.
Qed.

Lemma listdir_inv w p names :
  Os.listdir w p = Ok names ->
  exists m es, Os.stat w p = Ok (Dir m es) /\ names = map fst es.
Proof.
  unfold Os.listdir. destruct (Os.stat w p) as [[m d|m es]|e]; try discriminate.
  simpl. intros H. inversion H. eauto.
Qed.

Lemma in_names_lookup name es :
  wf_entries es = true -> In name (map fst es) ->
  exists x, Os.lookup name es = Some x.
Proof.
  intros Hwf Hin. apply in_map_iff in Hin as ([k x] & <- & Hin).
  exists x. now apply lookup_wf.
Qed.

(** X12. On a well-formed tree, a sweep that returns leaves [builds] as it
    was: it lists the same names, and every listed entry is found under
    [builds/] as before, whatever its age. *)
Theorem sweep_never_touches_builds now w names w' :
  wf_node (root w) = true ->
  Os.listdir w "builds" = Ok names ->
  delete_old_archives now w = Ok w' ->
  Os.listdir w' "builds" = Ok names
  /\ forall name, In name names ->
       Os.stat w' ("builds/" +:+ name) = Os.stat w ("builds/" +:+ name)
       /\ exists x, Os.stat w ("builds/" +:+ name) = Ok x.
Proof.
  intros Hwf Hl Hs.
  destruct (listdir_inv _ _ _ Hl) as (mb & eb & Hb & ->).
  destruct (stat_cwd w "builds" _ Hb eq_refl) as (m & es & Hdot).
  apply stat_dot in Hdot as (cl & Hcl & Hget).
  destruct (delete_old_archives_cwd now w (map fst eb) w' cl m es
              Hwf Hl Hcl Hget Hs) as (Hcwd & Hcl' & Hget').
  assert (Hb' : Os.stat w' "builds" = Ok (Dir mb eb)).
  { rewrite (stat_name w' cl m _ "builds" Hcl' Hget' eq_refl).
    rewrite lookup_filter_keep.
    2:{ intros x. unfold swept. cbn [fst snd].
        change (endswith "builds" ".zip") with false.
        now rewrite andb_false_r. }
    now rewrite <- (stat_name w cl m es "builds" Hcl Hget eq_refl). }
  split; [unfold Os.listdir; now rewrite Hb'|].
  intros name Hin.
  assert (Heb : wf_entries eb = true).
  { apply stat_inv in Hb as (loc & _ & Hg). rewrite <- (wf_node_dir mb).
    exact (wf_get loc _ _ Hwf Hg). }
  destruct (in_names_lookup name eb Heb Hin) as (x & Hx).
  assert (Hv : valid_name name = true).
  { apply lookup_some_in in Hx. now apply (wf_entries_in name x eb). }
  assert (Hg : Os.get (Dir mb eb) [name] = Some x).
  { simpl. now rewrite Hx. }
  assert (Hj : join2 "builds" (Str.join "/" [name]) = "builds/" +:+ name).
  { change (Str.join "/" [name]) with name. unfold join2.
    now rewrite (valid_name_not_abs name Hv). }
  pose proof (stat_below w "builds" _ [name] x Hb Hg) as S1.
  pose proof (stat_below w' "builds" _ [name] x Hb' Hg) as S2.
  rewrite Hj in S1, S2.
  assert (Hf : Forall (fun k => valid_name k = true) [name])
    by (constructor; [assumption|constructor]).
  rewrite S1, S2; try assumption; try discriminate. eauto.
Qed.

Lemma sweep_never_touches_builds_witness :
  Os.listdir w_old_swept "builds" = Ok ["old.zip"; "new.zip"]
  /\ forall name, In name ["old.zip"; "new.zip"] ->
       Os.stat w_old_swept ("builds/" +:+ name)
       = Os.stat w_old ("builds/" +:+ name)
       /\ exists x, Os.stat w_old ("builds/" +:+ name) = Ok x.
Proof.
  apply (sweep_never_touches_builds now0 w_old ["old.zip"; "new.zip"]
           w_old_swept); reflexivity.
Defined.

Lemma follow_last_loc fs l k loc m d :
  Os.follow fs l [k] = inr loc -> Os.get fs loc = Some (File m d) ->
  loc = l ++ [k].
Proof.
  simpl. destruct (Os.get fs l) as [[|m' es']|] eqn:El; try discriminate.
  destruct (String.eqb k "" || String.eqb k ".").
  { intros H. inversion H; subst. congruence. }
  destruct (String.eqb k "..").
  { intros H. inversion H; subst.
    destruct (get_parent_dir _ _ _ _ El) as (m1 & es1 & E). congruence. }
  destruct (Os.lookup k es'); [|discriminate].
  intros H. now inversion H.
Qed.

(** The location of a file ends with the last component of its path. *)
Lemma resolve_file_last w p loc m d :
  Os.resolve w p = inr loc -> Os.get (root w) loc = Some (File m d) ->
  exists l0, loc = l0 ++ [basename p].
Proof.
  intros Hres Hget. unfold Os.resolve in Hres.
  destruct p as [|c0 p0]; [discriminate|]. set (p := String c0 p0) in *.
  assert (Hf : exists l0, Os.follow (root w) l0 (split slash p) = inr loc).
  { destruct (isabs p); [eauto|].
    destruct (Os.follow (root w) [] (split slash (cwd w)));
      [discriminate|eauto]. }
  destruct Hf as (l0 & Hf). rewrite split_init_last, follow_app in Hf.
  destruct (Os.follow (root w) l0 (removelast (split slash p))) as [|l1];
    [discriminate|].
  exists l1. eapply follow_last_loc; eassumption.
Qed.

Lemma basename_slash_free k : slash_free k = true -> basename k = k.
Proof. intros H. unfold basename. now rewrite split_slash_free. Qed.

Lemma sweep_name_inv now w k w1 :
  sweep_name now w k = Ok w1 ->
  w1 = w \/ (endswith k ".zip" = true /\ Os.remove w k = Ok w1).
Proof.
  unfold sweep_name. destruct (endswith k ".zip"); [|intros H; inversion H; auto].
  unfold examine. simpl os_getmtime. simpl os_remove.
  destruct (Os.getmtime w k) as [mt|e]; simpl.
  - destruct (mt <? now - seven_days)%Z.
    + destruct (Os.remove w k) as [w2|e] eqn:E.
      * intros H. inversion H; subst. auto.
      * destruct e as [| |[]]; discriminate || (intros H; inversion H; auto).
    + intros H. inversion H; auto.
  - destruct e as [| |[]]; discriminate || (intros H; inversion H; auto).
Qed.

(** X13. On a well-formed tree, a regular file whose name does not end in
    [.zip] is still there after a sweep that returns, with the same
    modification time and content, wherever it lies. *)
Theorem sweep_keeps_other_files now w w' p m d :
  wf_node (root w) = true ->
  delete_old_archives now w = Ok w' ->
  Os.stat w p = Ok (File m d) ->
  endswith (basename p) ".zip" = false ->
  Os.stat w' p = Ok (File m d).
Proof.
  intros Hwf Hs Hst Hz. unfold delete_old_archives in Hs.
  simpl os_listdir in Hs.
  destruct (Os.listdir w "builds") as [names|e] eqn:Hl; [|discriminate].
  simpl in Hs. pose proof (listdir_valid w "builds" names Hwf Hl) as Hv.
  clear Hl Hwf. revert w Hs Hst.
  induction names as [|k rest IH]; intros w Hs Hst.
  - simpl in Hs. inversion Hs; subst. assumption.
  - inversion Hv as [|? ? Hk Hrest]; subst. simpl in Hs.
    destruct (sweep_name now w k) as [w1|e] eqn:E1; [|discriminate].
    simpl in Hs. apply (IH Hrest w1 Hs).
    apply sweep_name_inv in E1 as [->|[Ez Hrm]]; [assumption|].
    destruct (remove_inv _ _ _ Hrm) as (L & mL & dL & HL & HgL & _).
    apply stat_inv in Hst as (l' & Hl' & Hg').
    apply (stat_after_remove w k w1 L p l' _ Hrm HL Hl' Hg').
    intros (r & E). subst L. rewrite get_app, Hg' in HgL.
    destruct r; [|discriminate]. rewrite app_nil_r in HL.
    destruct (resolve_file_last w p l' m d Hl' Hg') as (l0 & E0).
    destruct (resolve_file_last w k l' m d HL Hg') as (l1 & E1).
    rewrite E0 in E1. apply app_inj_tail in E1 as [_ E1].
    apply valid_name_split in Hk as [Hk _].
    rewrite (basename_slash_free k Hk) in E1. congruence.
Qed.

Lemma sweep_keeps_other_files_witness :
  Os.stat w_old_swept "/srv/notes.txt" = Ok (File 0 (encode "old")).
Proof.
  apply (sweep_keeps_other_files now0 w_old w_old_swept "/srv/notes.txt");
    reflexivity.
Defined.

(** ** The response of the program *)

Lemma length_append s t :
  String.length (s +:+ t) = (String.length s + String.length t)%nat.
Proof. induction s; simpl; congruence. Qed.

Lemma string_forall_append f s t :
  string_forall f (s +:+ t) = string_forall f s && string_forall f t.
Proof.
  induction s as [|c r IH]; [reflexivity|]. simpl.
  now rewrite IH, andb_assoc.
Qed.

Lemma rounds_length ks : forall w st,
  List.length st = 8%nat -> List.length (Sha256.rounds ks w st) = 8%nat.
Proof.
  induction ks as [|k ks IH]; intros w st H; [now destruct w|].
  destruct w as [|wt w']; [exact H|].
  do 8 (destruct st as [|? st]; [discriminate H|]).
  destruct st; [|discriminate H].
  cbn [Sha256.rounds]. apply IH. reflexivity.
Qed.

Lemma compress_length st block :
  List.length st = 8%nat -> List.length (Sha256.compress st block) = 8%nat.
Proof.
  intros H. unfold Sha256.compress.
  rewrite length_map, length_combine, rounds_length, H by assumption.
  reflexivity.
Qed.

Lemma digest_words_length msg : List.length (Sha256.digest_words msg) = 8%nat.
Proof.
  unfold Sha256.digest_words.
  assert (G : forall blocks st, List.length st = 8%nat ->
                List.length (fold_left Sha256.compress blocks st) = 8%nat).
  { induction blocks as [|b r IH]; intros st H; [exact H|]. simpl.
    apply IH. now apply compress_length. }
  apply G. reflexivity.
Qed.

Lemma hex_digit_lower x : is_hex_lower (Sha256.hex_digit x) = true.
Proof.
  unfold Sha256.hex_digit, is_hex_lower. apply existsb_exists.
  exists (nth (N.to_nat x) (list_ascii_of_string "0123456789abcdef") "0"%char).
  split; [|apply Ascii.eqb_refl].
  destruct (nth_in_or_default (N.to_nat x)
              (list_ascii_of_string "0123456789abcdef") "0"%char) as [H|H];
    [exact H|]. rewrite H. simpl. auto.
Qed.

Lemma hex_bytes_shape l :
  String.length (String.concat "" (map Sha256.hex_byte l))
  = (2 * List.length l)%nat
  /\ string_forall is_hex_lower (String.concat "" (map Sha256.hex_byte l))
     = true.
Proof.
  induction l as [|x r [IH1 IH2]]; [split; reflexivity|].
  assert (E : String.concat "" (map Sha256.hex_byte (x :: r))
              = Sha256.hex_byte x +:+ String.concat "" (map Sha256.hex_byte r)).
  { cbn [map String.concat].
    destruct (map Sha256.hex_byte r); reflexivity. }
  rewrite E, length_append, string_forall_append, IH1, IH2. split.
  - simpl. lia.
  - unfold Sha256.hex_byte. cbn [string_forall].
    now rewrite !hex_digit_lower.
Qed.

Lemma flat_map_length4 (l : list N) :
  List.length (flat_map (Sha256.be_bytes 4) l) = (4 * List.length l)%nat.
Proof.
  induction l as [|x r IH]; [reflexivity|].
  cbn [flat_map]. rewrite length_app, IH. cbn [Sha256.be_bytes List.length]. lia.
Qed.

(** A digest is 64 lowercase hexadecimal digits. *)
Lemma hexdigest_shape msg :
  String.length (Sha256.hexdigest msg) = 64%nat
  /\ string_forall is_hex_lower (Sha256.hexdigest msg) = true.
Proof.
  unfold Sha256.hexdigest.
  destruct (hex_bytes_shape
              (flat_map (Sha256.be_bytes 4)
                        (Sha256.digest_words (map Byte.to_N msg)))) as [H1 H2].
  split; [|exact H2].
  rewrite H1, flat_map_length4, digest_words_length. reflexivity.
Qed.

(** What has happened when the program writes a response. *)
Lemma main_done resolve_path set_order now w q r :
  main resolve_path set_order now w q = Done r ->
  exists final_source_path hash_dirs w' content_hash w'',
    build_relative_path w (source_path q) (module_relpath q)
    = Ok final_source_path
    /\ map_result (fun dir => build_relative_path w dir (module_relpath q))
                  (build_paths q) = Ok hash_dirs
    /\ Os.chdir w (module_relpath q) = Ok w'
    /\ content_digest w' (set_order (final_source_path :: hash_dirs))
                      (runtime q) (build_command q) = Ok content_hash
    /\ delete_old_archives now w' = Ok w''
    /\ filename r = "builds/" +:+ content_hash +:+ ".zip"
    /\ build_command_out r
       = replace (replace (replace (build_command q) "$filename" (filename r))
                          "$runtime" (runtime q))
                 "$source" final_source_path.
Proof.
  unfold main. destruct (resolve_path _ _); [discriminate|].
  destruct (build_relative_path w (source_path q) (module_relpath q))
    as [fsp|] eqn:E1; [|discriminate]. cbn [bind].
  destruct (map_result _ _) as [dirs|] eqn:E2; [|discriminate]. cbn [bind].
  destruct (Os.chdir w (module_relpath q)) as [w'|] eqn:E3; [|discriminate].
  cbn [bind].
  destruct (content_digest _ _ _ _) as [d|] eqn:E4; [|discriminate].
  cbn [bind].
  destruct (delete_old_archives now w') as [w''|] eqn:E5; [|discriminate].
  cbn [bind run]. intros H. injection H as <-. cbn [filename build_command_out].
  exists fsp, dirs, w', d, w''. repeat split; assumption.
Qed.

Lemma content_digest_shape w ps rt cmd d :
  content_digest w ps rt cmd = Ok d ->
  String.length d = 64%nat /\ string_forall is_hex_lower d = true.
Proof.
  unfold content_digest. destruct (generate_content_hash w ps); [|discriminate].
  simpl. intros H. inversion H. apply hexdigest_shape.
Qed.

(** X14. When the program writes a response, its file name is [builds/]
    followed by 64 lowercase hexadecimal digits and [.zip]. *)
Theorem filename_shape resolve_path set_order now w q r :
  main resolve_path set_order now w q = Done r ->
  (exists digest,
      filename r = "builds/" +:+ digest +:+ ".zip"
      /\ String.length digest = 64%nat
      /\ string_forall is_hex_lower digest = true)
  /\ endswith (filename r) ".zip" = true.
Proof.
  intros H.
  destruct (main_done _ _ _ _ _ _ H)
    as (fsp & dirs & w' & d & w'' & _ & _ & _ & Hd & _ & Hf & _).
  destruct (content_digest_shape _ _ _ _ _ Hd) as [H1 H2].
  split; [now exists d|].
  rewrite Hf, <- append_assoc. apply endswith_app.
Qed.

Lemma filename_shape_witness :
  endswith
    (filename (response_of (main abspath dedup now0 w_repo query_ab))) ".zip"
  = true.
Proof.
  apply (filename_shape abspath dedup now0 w_repo query_ab
           (response_of (main abspath dedup now0 w_repo query_ab))).
  vm_compute. reflexivity.
Defined.

(** X15. A build command that contains none of [$filename], [$runtime] and
    [$source] is returned as given. *)
Theorem command_without_placeholders resolve_path set_order now w q r :
  main resolve_path set_order now w q = Done r ->
  occurs (build_command q) "$filename" = false ->
  occurs (build_command q) "$runtime" = false ->
  occurs (build_command q) "$source" = false ->
  build_command_out r = build_command q.
Proof.
  intros H H1 H2 H3.
  destruct (main_done _ _ _ _ _ _ H)
    as (fsp & dirs & w' & d & w'' & _ & _ & _ & _ & _ & _ & Hc).
  rewrite Hc.
  rewrite (replace_absent "$filename" (build_command q)) by (discriminate || assumption).
  rewrite (replace_absent "$runtime" (build_command q)) by (discriminate || assumption).
  now rewrite (replace_absent "$source" (build_command q)) by (discriminate || assumption).
Qed.

Lemma command_without_placeholders_witness :
  build_command_out (response_of (main abspath dedup now0 w_repo query_plain))
  = "make -C src build".
Proof.
  apply (command_without_placeholders abspath dedup now0 w_repo query_plain
           (response_of (main abspath dedup now0 w_repo query_plain)));
    [vm_compute; reflexivity|reflexivity|reflexivity|reflexivity].
Defined.

(** X16. When the module directory can be entered but [builds] cannot be
    listed in it, the program writes no response and ends with status 1: the
    error of the sweep is not caught. *)
Theorem no_response_without_builds resolve_path set_order now w q w' e :
  Os.chdir w (module_relpath q) = Ok w' ->
  Os.listdir w' "builds" = Raise e ->
  let o := main resolve_path set_order now w q in
  stdout_of o = None /\ exit_status o = 1%Z.
Proof.
  intros Hc Hl o.
  destruct o as [r| |] eqn:Eo; [|split; reflexivity|split; reflexivity].
  exfalso. subst o.
  destruct (main_done _ _ _ _ _ _ Eo)
    as (fsp & dirs & w1 & d & w'' & _ & _ & Hc' & _ & Hd & _).
  rewrite Hc in Hc'. inversion Hc'; subst w1.
  unfold delete_old_archives in Hd. simpl os_listdir in Hd.
  rewrite Hl in Hd. discriminate.
Qed.

Lemma no_response_without_builds_witness :
  main abspath dedup now0 w_repo query_no_builds = Crashed (OSError ENOENT)
  /\ stdout_of (main abspath dedup now0 w_repo query_no_builds) = None.
Proof.
  split; [vm_compute; reflexivity|].
  apply (no_response_without_builds abspath dedup now0 w_repo query_no_builds
           {| root := repo_tree; cwd := "/repo/shared" |} (OSError ENOENT));
    reflexivity.
Defined.
